(** * PCDSequence: the playback controller of a sequence of PCD files

    A shallow embedding of [src/Components/PCDSequence/PCDSequence.cpp]:
    the component state, its trigger handlers and the per-tick handler
    [onLoadCloud], followed by the properties of the playback state machine.

    A handler is a function on the state of the component that also yields
    the writes to the output streams and the calls of the loader, in order.
    Log messages are left out. *)

From Stdlib Require Import ZArith List Bool String Lia.
From Stdlib Require Import Sorted Permutation.
Import ListNotations.
Open Scope Z_scope.

(** ** Machine integers

    [index] and [previous_index] are [int]s, [files.size()] is a [size_t];
    an [int] has 32 bits and a [size_t] 64.  The conversions that the C++
    expressions perform are written out.  Where the source would overflow an
    [int] (undefined in C++) the value wraps; no state that the component
    reaches gets there. *)

Module MachineInt.

Definition int_bits : Z := 32.
Definition size_bits : Z := 64.

(** Conversion of a mathematical value to [int] (two's complement). *)
Definition to_int (z : Z) : Z :=
  (z + 2 ^ (int_bits - 1)) mod 2 ^ int_bits - 2 ^ (int_bits - 1).

(** Conversion of a mathematical value to [size_t]. *)
Definition to_size_t (z : Z) : Z := z mod 2 ^ size_bits.

Definition INT_MAX : Z := 2 ^ (int_bits - 1) - 1.

End MachineInt.
Import MachineInt.

(** ** Data model *)

(** The three record kinds the component can return. *)
Inductive Kind : Type := XYZ | XYZRGB | XYZSIFT.

(** [Base::UnitType], the payload of the trigger streams. *)
Inductive UnitType : Type := Unit.

Section Component.

(** The point types are opaque; a point cloud is the list of its points
    and a freshly allocated cloud is empty. *)
Context {PointT : Kind -> Type}.

Definition PointCloud (k : Kind) : Type := list (PointT k).

Definition new_PointCloud (k : Kind) : PointCloud k := [].

(** The properties registered by the constructor. *)
Record Props : Type := mkProps {
  prop_directory : string;
  prop_pattern : string;
  prop_sort : bool;
  prop_loop : bool;
  prop_auto_publish_cloud : bool;
  prop_auto_next_cloud : bool;
  prop_auto_prev_cloud : bool;
  prop_return_xyz : bool;
  prop_return_xyzrgb : bool;
  prop_return_xyzsift : bool
}.

(** The values the constructor gives them. *)
Definition default_props : Props :=
  mkProps "." ".*\.(pcd)" true false true true false false false false.

Definition prop_return (p : Props) (k : Kind) : bool :=
  match k with
  | XYZ => prop_return_xyz p
  | XYZRGB => prop_return_xyzrgb p
  | XYZSIFT => prop_return_xyzsift p
  end.

(** Modelled from the spec: the declarations of the member variables, which
    are in [PCDSequence.hpp] and not among the sources.  The cursor is an
    integer index and the previous index an integer with -1 for "nothing
    served yet"; the sequence is the ordered list of the paths; the request
    flags are booleans and there is one stored cloud per kind.  The names
    are those the handlers use. *)
Record PCDSequence : Type := mkPCDSequence {
  files : list string;
  index : Z;
  previous_index : Z;
  next_cloud_flag : bool;
  prev_cloud_flag : bool;
  reload_sequence_flag : bool;
  publish_cloud_flag : bool;
  cloud_xyz : PointCloud XYZ;
  cloud_xyzrgb : PointCloud XYZRGB;
  cloud_xyzsift : PointCloud XYZSIFT
}.

Definition cloud (k : Kind) : PCDSequence -> PointCloud k :=
  match k with
  | XYZ => cloud_xyz
  | XYZRGB => cloud_xyzrgb
  | XYZSIFT => cloud_xyzsift
  end.

Definition set_files (v : list string) (s : PCDSequence) : PCDSequence :=
  mkPCDSequence v (index s) (previous_index s) (next_cloud_flag s)
    (prev_cloud_flag s) (reload_sequence_flag s) (publish_cloud_flag s)
    (cloud_xyz s) (cloud_xyzrgb s) (cloud_xyzsift s).

Definition set_index (v : Z) (s : PCDSequence) : PCDSequence :=
  mkPCDSequence (files s) v (previous_index s) (next_cloud_flag s)
    (prev_cloud_flag s) (reload_sequence_flag s) (publish_cloud_flag s)
    (cloud_xyz s) (cloud_xyzrgb s) (cloud_xyzsift s).

Definition set_previous_index (v : Z) (s : PCDSequence) : PCDSequence :=
  mkPCDSequence (files s) (index s) v (next_cloud_flag s)
    (prev_cloud_flag s) (reload_sequence_flag s) (publish_cloud_flag s)
    (cloud_xyz s) (cloud_xyzrgb s) (cloud_xyzsift s).

Definition set_next_cloud_flag (v : bool) (s : PCDSequence) : PCDSequence :=
  mkPCDSequence (files s) (index s) (previous_index s) v
    (prev_cloud_flag s) (reload_sequence_flag s) (publish_cloud_flag s)
    (cloud_xyz s) (cloud_xyzrgb s) (cloud_xyzsift s).

Definition set_prev_cloud_flag (v : bool) (s : PCDSequence) : PCDSequence :=
  mkPCDSequence (files s) (index s) (previous_index s) (next_cloud_flag s)
    v (reload_sequence_flag s) (publish_cloud_flag s)
    (cloud_xyz s) (cloud_xyzrgb s) (cloud_xyzsift s).

Definition set_reload_sequence_flag (v : bool) (s : PCDSequence)
  : PCDSequence :=
  mkPCDSequence (files s) (index s) (previous_index s) (next_cloud_flag s)
    (prev_cloud_flag s) v (publish_cloud_flag s)
    (cloud_xyz s) (cloud_xyzrgb s) (cloud_xyzsift s).

Definition set_publish_cloud_flag (v : bool) (s : PCDSequence)
  : PCDSequence :=
  mkPCDSequence (files s) (index s) (previous_index s) (next_cloud_flag s)
    (prev_cloud_flag s) (reload_sequence_flag s) v
    (cloud_xyz s) (cloud_xyzrgb s) (cloud_xyzsift s).

Definition set_cloud (k : Kind) : PointCloud k -> PCDSequence -> PCDSequence :=
  match k with
  | XYZ => fun c s =>
      mkPCDSequence (files s) (index s) (previous_index s)
        (next_cloud_flag s) (prev_cloud_flag s) (reload_sequence_flag s)
        (publish_cloud_flag s) c (cloud_xyzrgb s) (cloud_xyzsift s)
  | XYZRGB => fun c s =>
      mkPCDSequence (files s) (index s) (previous_index s)
        (next_cloud_flag s) (prev_cloud_flag s) (reload_sequence_flag s)
        (publish_cloud_flag s) (cloud_xyz s) c (cloud_xyzsift s)
  | XYZSIFT => fun c s =>
      mkPCDSequence (files s) (index s) (previous_index s)
        (next_cloud_flag s) (prev_cloud_flag s) (reload_sequence_flag s)
        (publish_cloud_flag s) (cloud_xyz s) (cloud_xyzrgb s) c
  end.

(** *** The collaborators

    [Utils::searchFiles] and [pcl::io::loadPCDFile] are external.  A call
    of the loader either returns its [int] status together with the cloud
    it filled in, or throws. *)
Inductive LoadResult (k : Kind) : Type :=
| Returns (status : Z) (c : PointCloud k)
| Throws.
Arguments Returns {k} status c.
Arguments Throws {k}.

Record World : Type := mkWorld {
  searchFiles : string -> string -> list string;
  loadPCDFile : forall k : Kind, string -> LoadResult k
}.

(** What a handler does to the outside: writes to the output streams and
    calls of the loader. *)
Inductive Event : Type :=
| out_end_of_sequence_trigger_write (u : UnitType)
| out_cloud_write (k : Kind) (c : PointCloud k)
| loadPCDFile_call (k : Kind) (path : string).

(** ** The handler monad

    State of the component, trace of events, early [return] and a C++
    exception in flight. *)
Inductive Outcome (A : Type) : Type :=
| Normal (a : A)
| Return
| Thrown.
Arguments Normal {A} a.
Arguments Return {A}.
Arguments Thrown {A}.

Definition M (A : Type) : Type :=
  PCDSequence -> Outcome A * PCDSequence * list Event.

Definition ret {A} (a : A) : M A := fun s => (Normal a, s, []).

Definition bind {A B} (m : M A) (f : A -> M B) : M B :=
  fun s =>
    match m s with
    | (Normal a, s1, t1) =>
        match f a s1 with
        | (o, s2, t2) => (o, s2, t1 ++ t2)
        end
    | (Return, s1, t1) => (Return, s1, t1)
    | (Thrown, s1, t1) => (Thrown, s1, t1)
    end.

Definition get {A} (f : PCDSequence -> A) : M A := fun s => (Normal (f s), s, []).

Definition modify (f : PCDSequence -> PCDSequence) : M unit :=
  fun s => (Normal tt, f s, []).

Definition emit (e : Event) : M unit := fun s => (Normal tt, s, [e]).

Definition return_ {A} : M A := fun s => (Return, s, []).

Definition throw {A} : M A := fun s => (Thrown, s, []).

Definition when (b : bool) (m : M unit) : M unit :=
  if b then m else ret tt.

(** [try { m } catch (...) { h }] *)
Definition try_catch (m h : M unit) : M unit :=
  fun s =>
    match m s with
    | (Thrown, s1, t1) =>
        match h s1 with
        | (o, s2, t2) => (o, s2, t1 ++ t2)
        end
    | r => r
    end.

Notation "x <- m ; k" := (bind m (fun x => k))
  (at level 61, m at next level, right associativity).
Notation "m ;; k" := (bind m (fun _ => k))
  (at level 61, right associativity).

(** ** File discovery *)

(** [std::sort] on a vector of [std::string]: the ascending arrangement
    for the byte-wise lexicographic order. *)
Fixpoint sort_insert (x : string) (l : list string) : list string :=
  match l with
  | [] => [x]
  | y :: l' => if String.leb x y then x :: l else y :: sort_insert x l'
  end.

Definition std_sort (l : list string) : list string :=
  fold_right sort_insert [] l.

Definition is_empty {A} (l : list A) : bool :=
  match l with [] => true | _ => false end.

(** [files.size()], a [size_t]. *)
Definition files_size (s : PCDSequence) : Z :=
  to_size_t (Z.of_nat (List.length (files s))).

(** [files[index]].  An access out of range is undefined in the source;
    it yields the empty path here. *)
Definition files_at (l : list string) (i : Z) : string :=
  if (0 <=? i) && (i <? Z.of_nat (List.length l))
  then nth (Z.to_nat i) l EmptyString
  else EmptyString.

Section Handlers.

Variable p : Props.
Variable w : World.

(** [PCDSequence::findFiles] *)
Definition findFiles : M bool :=
  modify (set_files []);;
  modify (set_files (searchFiles w (prop_directory p) (prop_pattern p)));;
  when (prop_sort p) (modify (fun s => set_files (std_sort (files s)) s));;
  fs <- get files;
  ret (negb (is_empty fs)).

(** ** The tick: [PCDSequence::onLoadCloud] *)

(** "Check index range - first cloud." *)
Definition check_first_cloud : M unit :=
  i <- get index;
  when (i <? 0)
    (emit (out_end_of_sequence_trigger_write Unit);;
     if prop_loop p then
       n <- get files_size;
       modify (set_index (to_int (to_size_t (n - 1))))
     else
       modify (set_index 0);;
       return_).

(** "Check index range - last cloud."  The comparison is made in
    [size_t], to which [index] is converted. *)
Definition check_last_cloud : M unit :=
  i <- get index;
  n <- get files_size;
  when (n <=? to_size_t i)
    (emit (out_end_of_sequence_trigger_write Unit);;
     if prop_loop p then
       modify (set_index 0)
     else
       n <- get files_size;
       modify (set_index (to_int (to_size_t (n - 1))));;
       return_).

(** The first [if]/[else if]/[else] of the handler: reload, start, or
    move the index. *)
Definition navigate : M unit :=
  reload <- get reload_sequence_flag;
  if reload then
    _found <- findFiles;
    modify (set_index 0);;
    modify (set_reload_sequence_flag false)
  else
    prev <- get previous_index;
    if prev =? -1 then
      modify (set_index 0)
    else
      nf <- get next_cloud_flag;
      when (prop_auto_next_cloud p || nf)
        (modify (fun s => set_index (to_int (index s + 1)) s));;
      pf <- get prev_cloud_flag;
      when (prop_auto_prev_cloud p || pf)
        (modify (fun s => set_index (to_int (index s - 1)) s));;
      modify (set_next_cloud_flag false);;
      modify (set_prev_cloud_flag false);;
      check_first_cloud;;
      check_last_cloud.

(** "Check whether there are any clouds loaded." and "Check publishing
    flags." *)
Definition check_publish : M unit :=
  fs <- get files;
  when (is_empty fs) return_;;
  pf <- get publish_cloud_flag;
  when (negb (prop_auto_publish_cloud p) && negb pf) return_;;
  modify (set_publish_cloud_flag false).

(** Writing the stored cloud of one kind, when that kind is returned. *)
Definition write_stored (k : Kind) : M unit :=
  c <- get (cloud k);
  when (prop_return p k) (emit (out_cloud_write k c)).

(** "There is no need to load the cloud - return stored one." *)
Definition return_previous : M unit :=
  write_stored XYZ;;
  write_stored XYZRGB;;
  write_stored XYZSIFT;;
  return_.

(** The call [pcl::io::loadPCDFile<PointT>(files[index], *tmp)]. *)
Definition call_loadPCDFile (k : Kind) : M (Z * PointCloud k) :=
  path <- get (fun s => files_at (files s) (index s));
  emit (loadPCDFile_call k path);;
  match loadPCDFile w k path with
  | Returns status c => ret (status, c)
  | Throws => throw
  end.

(** One [if (prop_return_...) { ... }] block of the load phase. *)
Definition load_cloud (k : Kind) : M unit :=
  when (prop_return p k)
    (r <- call_loadPCDFile k;
     if fst r =? -1 then
       ret tt
     else
       i <- get index;
       modify (set_previous_index i);;
       modify (set_cloud k (snd r));;
       c <- get (cloud k);
       emit (out_cloud_write k c)).

(** The [try { ... } catch (...) { ... }] block. *)
Definition load_clouds : M unit :=
  try_catch
    (i <- get index;
     prev <- get previous_index;
     when (i =? prev) return_previous;;
     load_cloud XYZ;;
     load_cloud XYZRGB;;
     load_cloud XYZSIFT)
    (ret tt).

Definition onLoadCloud : M unit :=
  navigate;;
  check_publish;;
  load_clouds.

(** What precedes the [try] block. *)
Definition pre_load : M unit :=
  navigate;;
  check_publish.

(** One tick: the state and the events the handler leaves behind. *)
Definition tick (s : PCDSequence) : PCDSequence * list Event :=
  match onLoadCloud s with
  | (_, s', t) => (s', t)
  end.

End Handlers.

(** ** The other handlers *)

(** [PCDSequence::onInit] *)
Definition onInit (s : PCDSequence) : PCDSequence :=
  set_cloud XYZSIFT (new_PointCloud XYZSIFT)
    (set_cloud XYZRGB (new_PointCloud XYZRGB)
      (set_cloud XYZ (new_PointCloud XYZ)
        (set_reload_sequence_flag true
          (set_prev_cloud_flag false
            (set_next_cloud_flag false
              (set_previous_index (-1)
                (set_index 0 s))))))).

Definition onPublishCloud : PCDSequence -> PCDSequence :=
  set_publish_cloud_flag true.

Definition onLoadNextCloud : PCDSequence -> PCDSequence :=
  set_next_cloud_flag true.

Definition onLoadPrevCloud : PCDSequence -> PCDSequence :=
  set_prev_cloud_flag true.

Definition onSequenceReload : PCDSequence -> PCDSequence :=
  set_reload_sequence_flag true.

(** The triggered variants first read their input stream. *)
Definition stream_read (port : list UnitType) : list UnitType := tl port.

Definition onTriggeredPublishCloud (port : list UnitType) (s : PCDSequence)
  : list UnitType * PCDSequence :=
  (stream_read port, set_publish_cloud_flag true s).

Definition onTriggeredLoadNextCloud (port : list UnitType) (s : PCDSequence)
  : list UnitType * PCDSequence :=
  (stream_read port, set_next_cloud_flag true s).

Definition onTriggeredLoadPrevCloud (port : list UnitType) (s : PCDSequence)
  : list UnitType * PCDSequence :=
  (stream_read port, set_prev_cloud_flag true s).

(** ** Runs *)

(** Consecutive ticks, one world per tick: the state after each tick and
    the events of that tick. *)
Fixpoint run (p : Props) (ws : list World) (s : PCDSequence)
  : list (PCDSequence * list Event) :=
  match ws with
  | [] => []
  | w :: ws' => tick p w s :: run p ws' (fst (tick p w s))
  end.

(** The state after [n] ticks in an unchanging world. *)
Fixpoint ticks (p : Props) (w : World) (n : nat) (s : PCDSequence)
  : PCDSequence :=
  match n with
  | O => s
  | S n' => ticks p w n' (fst (tick p w s))
  end.

End Component.

Arguments PointCloud PointT k : clear implicits.
Arguments PCDSequence PointT : clear implicits.
Arguments LoadResult PointT k : clear implicits.
Arguments World PointT : clear implicits.
Arguments Event PointT : clear implicits.
Arguments M PointT A : clear implicits.

Arguments Returns {PointT k} status c.
Arguments Throws {PointT k}.
Arguments Normal {A} a.
Arguments Return {A}.
Arguments Thrown {A}.

(** ** Vocabulary of the properties *)

Section Vocabulary.

Context {PointT : Kind -> Type}.

(** The kinds in the order in which the handler treats them. *)
Definition kinds : list Kind := [XYZ; XYZRGB; XYZSIFT].

Definition kind_rank (k : Kind) : nat :=
  match k with XYZ => 0 | XYZRGB => 1 | XYZSIFT => 2 end.

Definition requested_kinds (p : Props) : list Kind :=
  filter (prop_return p) kinds.

(** The writes of the stored clouds of the requested kinds. *)
Definition stored_writes (p : Props) (s : PCDSequence PointT)
  : list (Event PointT) :=
  map (fun k => out_cloud_write k (cloud k s)) (requested_kinds p).

(** The file list that [findFiles] leaves in [files]. *)
Definition found_files (p : Props) (w : World PointT) : list string :=
  let l := searchFiles w (prop_directory p) (prop_pattern p) in
  if prop_sort p then std_sort l else l.

(** The loader decodes [path] as the cloud [c] of kind [k]: it returns,
    and with a status other than -1. *)
Definition decodes (w : World PointT) (k : Kind) (path : string)
  (c : PointCloud PointT k) : Prop :=
  exists status, loadPCDFile w k path = Returns status c /\ status <> -1.

(** The loader reports a failure on [path]. *)
Definition fails (w : World PointT) (k : Kind) (path : string) : Prop :=
  exists c, loadPCDFile w k path = Returns (-1) c.

Definition is_end_of_sequence (e : Event PointT) : bool :=
  match e with
  | out_end_of_sequence_trigger_write _ => true
  | _ => false
  end.

Definition is_cloud_write (e : Event PointT) : bool :=
  match e with
  | out_cloud_write _ _ => true
  | _ => false
  end.

Definition is_load (e : Event PointT) : bool :=
  match e with
  | loadPCDFile_call _ _ => true
  | _ => false
  end.

(** How often a trace signals the end of the sequence. *)
Definition end_of_sequence_count (t : list (Event PointT)) : nat :=
  List.length (filter is_end_of_sequence t).

(** The index as the two [if]s on the triggering mode leave it, before the
    range checks. *)
Definition moved_index (p : Props) (s : PCDSequence PointT) : Z :=
  index s
  + (if prop_auto_next_cloud p || next_cloud_flag s then 1 else 0)
  - (if prop_auto_prev_cloud p || prev_cloud_flag s then 1 else 0).

(** The state in which the navigation branch leaves the component when it
    settles on index [i]. *)
Definition moved_to (i : Z) (s : PCDSequence PointT) : PCDSequence PointT :=
  set_prev_cloud_flag false (set_next_cloud_flag false (set_index i s)).

Definition size (s : PCDSequence PointT) : Z :=
  Z.of_nat (List.length (files s)).

(** The events of a load phase in which every requested kind is read from
    [path] and written out; [c k] is the cloud of kind [k]. *)
Definition loaded_writes (p : Props) (path : string)
  (c : forall k, PointCloud PointT k) : list (Event PointT) :=
  flat_map (fun k => [loadPCDFile_call k path; out_cloud_write k (c k)])
    (requested_kinds p).

(** The states of a component that was initialised and then driven by
    ticks and requests, in directories that an [int] can index. *)
Inductive reachable (p : Props) : PCDSequence PointT -> Prop :=
| reach_init s :
    files s = [] -> reachable p (onInit s)
| reach_tick w s :
    reachable p s ->
    Z.of_nat (List.length (found_files p w)) <= INT_MAX ->
    reachable p (fst (tick p w s))
| reach_next s : reachable p s -> reachable p (onLoadNextCloud s)
| reach_prev s : reachable p s -> reachable p (onLoadPrevCloud s)
| reach_reload s : reachable p s -> reachable p (onSequenceReload s)
| reach_publish s : reachable p s -> reachable p (onPublishCloud s).

End Vocabulary.

(** ** Concrete components

    Small instances of the component and of its collaborators, on which the
    handlers are evaluated. *)

Module Scenario.

(** Points are plain identifiers. *)
Definition Pt (k : Kind) : Type := nat.

(** The component as constructed, before [onInit]. *)
Definition constructed : PCDSequence Pt :=
  mkPCDSequence [] 0 0 false false false false [] [] [].

(** The properties of the constructor, with the given modes and kinds. *)
Definition props_with
  (loop auto_publish auto_next auto_prev xyz xyzrgb xyzsift : bool)
  : Props :=
  mkProps "." ".*\.(pcd)" true loop auto_publish auto_next auto_prev
    xyz xyzrgb xyzsift.

Definition kind_eqb (k1 k2 : Kind) : bool :=
  Nat.eqb (kind_rank k1) (kind_rank k2).

(** The number of the frame stored in a file. *)
Definition frame (path : string) : nat :=
  if String.eqb path "f0" then 0
  else if String.eqb path "f1" then 1
  else if String.eqb path "f2" then 2
  else 9.

(** The cloud stored in a file: one point per kind and frame. *)
Definition cloud_of (k : Kind) (path : string) : PointCloud Pt k :=
  [(10 * kind_rank k + frame path)%nat].

(** A directory with the files [l], all of them readable. *)
Definition world_of (l : list string) : World Pt :=
  mkWorld (fun _ _ => l) (fun k path => Returns 0 (cloud_of k path)).

(** The same, but reading kind [kt] throws. *)
Definition world_throwing (kt : Kind) (l : list string) : World Pt :=
  mkWorld (fun _ _ => l)
    (fun k path =>
       if kind_eqb k kt then Throws else Returns 0 (cloud_of k path)).

(** The same, but reading kind [kf] from [bad] reports -1. *)
Definition world_failing (kf : Kind) (bad : string) (l : list string)
  : World Pt :=
  mkWorld (fun _ _ => l)
    (fun k path =>
       if kind_eqb k kf && String.eqb path bad then Returns (-1) []
       else Returns 0 (cloud_of k path)).

End Scenario.

(** ** Machine integers: the conversions are the identity in range *)

Lemma to_int_small (z : Z) :
  - 2 ^ 31 <= z < 2 ^ 31 -> to_int z = z.
Proof.
  intros Hz. unfold to_int, int_bits.
  change (2 ^ (32 - 1)) with 2147483648.
  change (2 ^ 32) with 4294967296.
  change (2 ^ 31) with 2147483648 in Hz.
  rewrite Z.mod_small; lia.
Qed.

Lemma to_size_t_small (z : Z) :
  0 <= z < 2 ^ 64 -> to_size_t z = z.
Proof.
  intros Hz. unfold to_size_t, size_bits. now apply Z.mod_small.
Qed.

Lemma to_size_t_minus_one : to_size_t (-1) = 2 ^ 64 - 1.
Proof. reflexivity. Qed.

Lemma to_int_size_t_minus_one : to_int (to_size_t (-1)) = -1.
Proof. reflexivity. Qed.

(** ** Equations of the handler *)

(** Unfolding of the monad and of the record accessors, leaving the
    arithmetic alone. *)
Ltac unfold_handler :=
  cbv [onLoadCloud pre_load navigate check_first_cloud check_last_cloud
       check_publish load_clouds load_cloud call_loadPCDFile return_previous
       write_stored tick
       bind get modify emit return_ throw when ret try_catch
       moved_to moved_index size files_size stored_writes
       requested_kinds kinds filter map prop_return
       set_files set_index set_previous_index set_next_cloud_flag
       set_prev_cloud_flag set_reload_sequence_flag set_publish_cloud_flag
       set_cloud cloud
       files index previous_index next_cloud_flag prev_cloud_flag
       reload_sequence_flag publish_cloud_flag
       cloud_xyz cloud_xyzrgb cloud_xyzsift
       is_empty negb andb orb fst snd app].

Ltac destruct_state s :=
  let fs := fresh "fs" in
  let i := fresh "i" in
  let pi := fresh "pi" in
  let nf := fresh "nf" in
  let pf := fresh "pf" in
  let rf := fresh "rf" in
  let bf := fresh "bf" in
  let cx := fresh "cx" in
  let cr := fresh "cr" in
  let cs := fresh "cs" in
  destruct s as [fs i pi nf pf rf bf cx cr cs].

Ltac destruct_props p :=
  let dir := fresh "dir" in
  let pat := fresh "pat" in
  let srt := fresh "srt" in
  let lp := fresh "lp" in
  let ap := fresh "ap" in
  let an := fresh "an" in
  let av := fresh "av" in
  let rx := fresh "rx" in
  let rr := fresh "rr" in
  let rs := fresh "rs" in
  destruct p as [dir pat srt lp ap an av rx rr rs].

Ltac unfold_props :=
  cbv [prop_directory prop_pattern prop_sort prop_loop
       prop_auto_publish_cloud prop_auto_next_cloud prop_auto_prev_cloud
       prop_return_xyz prop_return_xyzrgb prop_return_xyzsift].

Section Equations.

Context {PointT : Kind -> Type}.

Implicit Types (p : Props) (w : World PointT) (s : PCDSequence PointT).

Lemma findFiles_eq p w s :
  findFiles p w s
  = (Normal (negb (is_empty (found_files p w))),
     set_files (found_files p w) s, []).
Proof.
  unfold findFiles, found_files, bind, modify, when, get, ret.
  destruct (prop_sort p); reflexivity.
Qed.

(** A pending reload: the files are searched again and the index is 0. *)
Lemma navigate_reload p w s :
  reload_sequence_flag s = true ->
  navigate p w s
  = (Normal tt,
     set_reload_sequence_flag false
       (set_index 0 (set_files (found_files p w) s)), []).
Proof.
  intros H. unfold navigate, bind at 1, get at 1. rewrite H.
  unfold bind at 1. rewrite findFiles_eq. reflexivity.
Qed.

(** Nothing loaded so far: the index is 0. *)
Lemma navigate_start p w s :
  reload_sequence_flag s = false ->
  previous_index s = -1 ->
  navigate p w s = (Normal tt, set_index 0 s, []).
Proof.
  intros H1 H2. unfold navigate, bind, get. rewrite H1, H2. reflexivity.
Qed.

(** Otherwise the index moves and is brought back into range.  The
    equation is for a non-empty file list that an [int] can index, and an
    index within it. *)
Lemma navigate_steady p w s :
  reload_sequence_flag s = false ->
  previous_index s <> -1 ->
  size s <= INT_MAX ->
  0 <= index s < size s ->
  navigate p w s
  = let j := moved_index p s in
    let eos := [out_end_of_sequence_trigger_write Unit] in
    if j <? 0 then
      if prop_loop p then (Normal tt, moved_to (size s - 1) s, eos)
      else (Return, moved_to 0 s, eos)
    else if size s <=? j then
      if prop_loop p then (Normal tt, moved_to 0 s, eos)
      else (Return, moved_to (size s - 1) s, eos)
    else (Normal tt, moved_to j s, []).
Proof.
  destruct_props p. destruct_state s.
  unfold INT_MAX, int_bits. change (2 ^ (32 - 1) - 1) with 2147483647.
  cbv [size moved_index moved_to files index next_cloud_flag
       prev_cloud_flag reload_sequence_flag previous_index
       set_prev_cloud_flag set_next_cloud_flag set_index
       publish_cloud_flag cloud_xyz cloud_xyzrgb cloud_xyzsift].
  unfold_props.
  set (n := Z.of_nat (List.length fs)).
  intros -> Hpi Hn Hi.
  assert (E : (pi =? -1) = false) by (apply Z.eqb_neq; exact Hpi).
  assert (E6 : forall j, 0 <= j <= n -> to_size_t j = j).
  { intros j Hj. apply to_size_t_small.
    change (2 ^ 64) with 18446744073709551616. lia. }
  assert (E7 : forall j, -1 <= j <= n -> to_int j = j).
  { intros j Hj. apply to_int_small.
    change (2 ^ 31) with 2147483648. lia. }
  destruct an; destruct nf; destruct av; destruct pf; destruct lp.
  all: unfold_handler; unfold_props; fold n; rewrite ?E.
  all: rewrite ?Z.sub_0_r, ?Z.add_0_r.
  all: repeat match goal with
       | |- context [to_size_t ?j] => rewrite (E6 j) by lia
       | |- context [to_int ?j] => rewrite (E7 j) by lia
       | |- context [?a <? ?b] =>
           destruct (Z.ltb_spec a b); try (exfalso; lia)
       | |- context [?a <=? ?b] =>
           destruct (Z.leb_spec a b); try (exfalso; lia)
       end.
  all: reflexivity.
Qed.

Lemma check_publish_eq p s :
  check_publish p s
  = if is_empty (files s) then (Return, s, [])
    else if negb (prop_auto_publish_cloud p) && negb (publish_cloud_flag s)
         then (Return, s, [])
         else (Normal tt, set_publish_cloud_flag false s, []).
Proof.
  destruct_props p. destruct_state s. unfold_handler. unfold_props.
  destruct fs; [reflexivity|]. destruct ap, bf; reflexivity.
Qed.

(** One block of the load phase. *)
Lemma load_cloud_eq p w k s :
  load_cloud p w k s
  = let path := files_at (files s) (index s) in
    if prop_return p k then
      match loadPCDFile w k path with
      | Returns status c =>
          if status =? -1 then (Normal tt, s, [loadPCDFile_call k path])
          else (Normal tt,
                set_cloud k c (set_previous_index (index s) s),
                [loadPCDFile_call k path; out_cloud_write k c])
      | Throws => (Thrown, s, [loadPCDFile_call k path])
      end
    else (Normal tt, s, []).
Proof.
  destruct_state s. cbv zeta.
  destruct (prop_return p k) eqn:Ek;
    unfold load_cloud, when, call_loadPCDFile; rewrite Ek;
    [|reflexivity].
  unfold bind, get, emit, throw, ret, modify. cbn [files index app].
  destruct (loadPCDFile w k (files_at fs i)) as [status c|];
    [|reflexivity].
  cbn [fst snd]. destruct (status =? -1); [reflexivity|].
  destruct k; reflexivity.
Qed.

(** *** Laws of the monad, at a state *)

Lemma bind_ret {A B} (a : A) (k : A -> M PointT B) s :
  bind (ret a) k s = k a s.
Proof. unfold bind, ret. now destruct (k a s) as [[o s2] t2]. Qed.

Lemma bind_get {A B} (f : PCDSequence PointT -> A) (k : A -> M PointT B) s :
  bind (get f) k s = k (f s) s.
Proof. unfold bind, get. now destruct (k (f s) s) as [[o s2] t2]. Qed.

Lemma bind_modify {B} f (k : unit -> M PointT B) s :
  bind (modify f) k s = k tt (f s).
Proof. unfold bind, modify. now destruct (k tt (f s)) as [[o s2] t2]. Qed.

Lemma bind_assoc {A B C} (m : M PointT A) (f : A -> M PointT B)
  (g : B -> M PointT C) s :
  bind (bind m f) g s = bind m (fun x => bind (f x) g) s.
Proof.
  unfold bind. destruct (m s) as [[[a| |] s1] t1]; try reflexivity.
  destruct (f a s1) as [[[b| |] s2] t2]; try reflexivity.
  destruct (g b s2) as [[o s3] t3]. now rewrite app_assoc.
Qed.

(** The handler is what precedes the [try] block, then the block. *)
Lemma onLoadCloud_pre_load p w s :
  onLoadCloud p w s = bind (pre_load p w) (fun _ => load_clouds p w) s.
Proof. unfold onLoadCloud, pre_load. now rewrite bind_assoc. Qed.

Lemma pre_load_eq p w s :
  pre_load p w s
  = match navigate p w s with
    | (Normal _, s1, t1) =>
        if is_empty (files s1) then (Return, s1, t1)
        else if negb (prop_auto_publish_cloud p)
                && negb (publish_cloud_flag s1)
             then (Return, s1, t1)
             else (Normal tt, set_publish_cloud_flag false s1, t1)
    | r => r
    end.
Proof.
  unfold pre_load, bind.
  destruct (navigate p w s) as [[[[]| |] s1] t1]; try reflexivity.
  rewrite check_publish_eq.
  destruct (is_empty (files s1)); [now rewrite app_nil_r|].
  destruct (negb (prop_auto_publish_cloud p) && negb (publish_cloud_flag s1));
    now rewrite app_nil_r.
Qed.

(** A tick that reaches the [try] block in state [s1]. *)
Lemma onLoadCloud_reaching p w s s1 t1 :
  pre_load p w s = (Normal tt, s1, t1) ->
  onLoadCloud p w s
  = match load_clouds p w s1 with
    | (o, s2, t2) => (o, s2, t1 ++ t2)
    end.
Proof.
  intros H. rewrite onLoadCloud_pre_load. unfold bind. now rewrite H.
Qed.

(** A tick that returns before the [try] block. *)
Lemma onLoadCloud_returning p w s s1 t1 :
  pre_load p w s = (Return, s1, t1) ->
  onLoadCloud p w s = (Return, s1, t1).
Proof.
  intros H. rewrite onLoadCloud_pre_load. unfold bind. now rewrite H.
Qed.

(** The cache check succeeds: the stored clouds are written again. *)
Lemma load_clouds_cached p w s :
  index s = previous_index s ->
  load_clouds p w s = (Return, s, stored_writes p s).
Proof.
  destruct_props p. destruct_state s.
  cbv [index previous_index]. intros ->.
  unfold_handler. unfold_props. rewrite Z.eqb_refl.
  destruct rx, rr, rs; reflexivity.
Qed.

(** The cache check fails: the three blocks, inside the [try]. *)
Lemma load_clouds_miss p w s :
  index s <> previous_index s ->
  load_clouds p w s
  = try_catch
      (bind (load_cloud p w XYZ)
         (fun _ => bind (load_cloud p w XYZRGB)
                     (fun _ => load_cloud p w XYZSIFT)))
      (ret tt) s.
Proof.
  intros H. apply Z.eqb_neq in H.
  unfold load_clouds, try_catch. rewrite !bind_get, H.
  unfold when. rewrite bind_ret. reflexivity.
Qed.

End Equations.

(** Case analysis on one block of the load phase: the kind is not returned,
    the loader reports -1, another status, or throws. *)
Ltac state_simpl :=
  cbn [files index previous_index set_cloud set_previous_index
       set_publish_cloud_flag set_index
       next_cloud_flag prev_cloud_flag reload_sequence_flag
       publish_cloud_flag cloud cloud_xyz cloud_xyzrgb cloud_xyzsift
       app ret fst snd] in *.

Ltac st :=
  cbn [files index previous_index set_cloud set_previous_index
       set_publish_cloud_flag set_index set_files set_next_cloud_flag
       set_prev_cloud_flag set_reload_sequence_flag moved_to
       next_cloud_flag prev_cloud_flag reload_sequence_flag
       publish_cloud_flag cloud cloud_xyz cloud_xyzrgb cloud_xyzsift
       app ret fst snd] in *.

Ltac load_step :=
  rewrite load_cloud_eq; cbv zeta; state_simpl;
  match goal with
  | |- context [if prop_return ?p ?k then _ else _] =>
      destruct (prop_return p k) eqn:?
  end;
  [ match goal with
    | |- context [loadPCDFile ?w ?k ?path] =>
        let st := fresh "status" in
        let c := fresh "c" in
        destruct (loadPCDFile w k path) as [st c|] eqn:?;
        [ destruct (Z.eqb_spec st (-1)) | ]
    end
  | ].

Ltac load_cases :=
  unfold try_catch, bind; load_step; try load_step; try load_step;
  state_simpl.

Section Frames.

Context {PointT : Kind -> Type}.

Implicit Types (p : Props) (w : World PointT) (s : PCDSequence PointT).

(** What the [try] block leaves alone, and that no exception leaves it. *)
Lemma load_clouds_frame p w s :
  match load_clouds p w s with
  | (o, s', t) =>
      o <> Thrown /\ files s' = files s /\ index s' = index s
      /\ next_cloud_flag s' = next_cloud_flag s
      /\ prev_cloud_flag s' = prev_cloud_flag s
      /\ reload_sequence_flag s' = reload_sequence_flag s
      /\ publish_cloud_flag s' = publish_cloud_flag s
      /\ (previous_index s' = previous_index s
          \/ previous_index s' = index s)
  end.
Proof.
  destruct (Z.eq_dec (index s) (previous_index s)) as [E | E].
  - rewrite load_clouds_cached by exact E.
    repeat split; try discriminate. now left.
  - rewrite load_clouds_miss by exact E.
    destruct_state s. load_cases.
    all: repeat split; try discriminate; auto.
Qed.

(** When no block stored a cloud, the state is as before. *)
Lemma load_clouds_nothing_loaded p w s :
  index s <> previous_index s ->
  previous_index (snd (fst (load_clouds p w s))) <> index s ->
  snd (fst (load_clouds p w s)) = s.
Proof.
  intros E. rewrite load_clouds_miss by exact E.
  destruct_state s. load_cases.
  all: intros H; try reflexivity; exfalso; apply H; reflexivity.
Qed.

(** What the first part of the handler leaves alone. *)
Lemma navigate_frame p w s :
  match navigate p w s with
  | (o, s', t) =>
      o <> Thrown
      /\ forallb is_end_of_sequence t = true
      /\ reload_sequence_flag s' = false
      /\ previous_index s' = previous_index s
      /\ publish_cloud_flag s' = publish_cloud_flag s
      /\ (forall k, cloud k s' = cloud k s)
      /\ (reload_sequence_flag s = false -> files s' = files s)
      /\ (reload_sequence_flag s = false -> previous_index s <> -1 ->
          next_cloud_flag s' = false /\ prev_cloud_flag s' = false)
      /\ (reload_sequence_flag s = true \/ previous_index s = -1 ->
          o = Normal tt /\ t = [] /\ index s' = 0
          /\ next_cloud_flag s' = next_cloud_flag s
          /\ prev_cloud_flag s' = prev_cloud_flag s)
  end.
Proof.
  destruct (reload_sequence_flag s) eqn:Er.
  { rewrite navigate_reload by exact Er. destruct_state s.
    cbn. repeat split; try discriminate; try congruence.
    intros k; destruct k; reflexivity. }
  destruct (Z.eq_dec (previous_index s) (-1)) as [Ep | Ep].
  { rewrite navigate_start by assumption. destruct_state s.
    cbn in *. repeat split; try discriminate; try congruence.
    intros k; destruct k; reflexivity. }
  destruct_props p. destruct_state s. cbn in Er, Ep. subst rf.
  apply Z.eqb_neq in Ep.
  destruct an; destruct nf; destruct av; destruct pf; destruct lp.
  all: unfold_handler; unfold_props; rewrite ?Ep.
  all: repeat match goal with
       | |- context [if ?c then _ else _] => destruct c eqn:?
       end.
  all: repeat split; try discriminate; try congruence.
  all: try (intros k; destruct k; reflexivity).
  all: match goal with
       | H : _ \/ _ |- _ =>
           exfalso; destruct H as [H | H];
           [discriminate H | apply Z.eqb_neq in Ep; exact (Ep H)]
       end.
Qed.

End Frames.

(** ** The load phase *)

Ltac not_in :=
  let H := fresh in
  cbn [In]; intros H;
  repeat match goal with
         | H : _ \/ _ |- _ => destruct H as [H | H]
         end;
  match goal with
  | H : False |- _ => exact H
  | H : _ = _ |- _ => try discriminate H; try congruence
  end.

Ltac in_list := cbn [In]; auto 12.

Section LoadPhase.

Context {PointT : Kind -> Type}.

Implicit Types (p : Props) (w : World PointT) (s : PCDSequence PointT).

(** No exception leaves the handler. *)
Lemma onLoadCloud_catches p w s :
  fst (fst (onLoadCloud p w s)) <> Thrown.
Proof.
  rewrite onLoadCloud_pre_load. unfold bind. rewrite pre_load_eq.
  pose proof (navigate_frame p w s) as Hn.
  destruct (navigate p w s) as [[[[]| |] s1] t1]; cbn [fst];
    try discriminate.
  - destruct (is_empty (files s1)); [discriminate|].
    destruct (negb _ && negb _); [discriminate|].
    pose proof (load_clouds_frame p w (set_publish_cloud_flag false s1))
      as Hl.
    destruct (load_clouds p w _) as [[o s2] t2]. cbn [fst]. tauto.
  - tauto.
Qed.

(** C1, as the handler has it.  An exception thrown while a kind is loaded
    is caught by the one [try] block around the three loads, and the
    handler ends normally.  The kinds treated before the throwing one were
    loaded as usual: each was read and, when decoded, stored and written
    out.  The throwing kind and the kinds after it are skipped: nothing is
    stored or written for them, and the later ones are not even read. *)
Theorem exception_ends_load_phase p w s s1 t1 k :
  pre_load p w s = (Normal tt, s1, t1) ->
  index s1 <> previous_index s1 ->
  prop_return p k = true ->
  loadPCDFile w k (files_at (files s1) (index s1)) = Throws ->
  (forall k', (kind_rank k' < kind_rank k)%nat -> prop_return p k' = true ->
              loadPCDFile w k' (files_at (files s1) (index s1)) <> Throws) ->
  exists s2 t2,
    onLoadCloud p w s = (Normal tt, s2, t1 ++ t2)
    /\ In (loadPCDFile_call k (files_at (files s1) (index s1))) t2
    /\ (forall k', (kind_rank k <= kind_rank k')%nat ->
          cloud k' s2 = cloud k' s1
          /\ (forall c, ~ In (out_cloud_write k' c) t2)
          /\ (k' <> k -> forall f, ~ In (loadPCDFile_call k' f) t2))
    /\ (forall k', (kind_rank k' < kind_rank k)%nat ->
          prop_return p k' = true ->
          In (loadPCDFile_call k' (files_at (files s1) (index s1))) t2
          /\ forall c, decodes w k' (files_at (files s1) (index s1)) c ->
               cloud k' s2 = c /\ In (out_cloud_write k' c) t2).
Proof.
  intros Hpre Hmiss Hk Hthrow Hbefore.
  rewrite (onLoadCloud_reaching _ _ _ _ _ Hpre).
  rewrite load_clouds_miss by exact Hmiss.
  destruct_state s1. state_simpl.
  assert (Hx := Hbefore XYZ). assert (Hr := Hbefore XYZRGB).
  clear Hbefore.
  destruct k; cbn [kind_rank] in *; load_cases.
  all: try congruence.
  all: try (exfalso; apply Hx; first [lia | reflexivity | assumption]).
  all: try (exfalso; apply Hr; first [lia | reflexivity | assumption]).
  all: eexists _, _; (split; [reflexivity|]); (split; [in_list|]).
  all: split;
    [ intros k' Hle; destruct k'; cbn [kind_rank] in Hle; try lia;
      (split; [reflexivity|]);
      (split; [intros c'; not_in | intros Hk' f; try congruence; not_in])
    | intros k' Hlt Hk'; destruct k'; cbn [kind_rank] in Hlt; try lia;
      try congruence;
      (split; [in_list|]);
      intros c' [st [Hd Hst]];
      match goal with
      | H : loadPCDFile _ _ _ = Returns _ _ |- _ =>
          rewrite H in Hd; injection Hd as <- <-
      end;
      try congruence;
      (split; [reflexivity | in_list]) ].
Qed.

Lemma stored_writes_no_load p s :
  existsb is_load (stored_writes p s) = false
  /\ existsb is_end_of_sequence (stored_writes p s) = false.
Proof.
  destruct_props p. unfold stored_writes, requested_kinds, kinds.
  cbn [filter prop_return prop_return_xyz prop_return_xyzrgb
       prop_return_xyzsift].
  destruct rx, rr, rs; split; reflexivity.
Qed.

(** Every requested kind is decoded. *)
Lemma load_clouds_all_decoded p w s (c : forall k, PointCloud PointT k) :
  index s <> previous_index s ->
  (forall k, prop_return p k = true ->
     decodes w k (files_at (files s) (index s)) (c k)) ->
  match load_clouds p w s with
  | (o, s', t) =>
      o = Normal tt
      /\ t = loaded_writes p (files_at (files s) (index s)) c
      /\ files s' = files s /\ index s' = index s
      /\ next_cloud_flag s' = next_cloud_flag s
      /\ prev_cloud_flag s' = prev_cloud_flag s
      /\ reload_sequence_flag s' = reload_sequence_flag s
      /\ publish_cloud_flag s' = publish_cloud_flag s
      /\ (requested_kinds p <> [] -> previous_index s' = index s)
      /\ (forall k, prop_return p k = true -> cloud k s' = c k)
  end.
Proof.
  intros Hmiss Hdec. rewrite load_clouds_miss by exact Hmiss.
  pose proof (Hdec XYZ) as Hx. pose proof (Hdec XYZRGB) as Hr.
  pose proof (Hdec XYZSIFT) as Hs. clear Hdec.
  unfold decodes in Hx, Hr, Hs.
  destruct_state s. state_simpl.
  unfold loaded_writes, requested_kinds, kinds. cbn [filter].
  load_cases.
  all: repeat match goal with
       | H : true = true -> _ |- _ => specialize (H eq_refl)
       | H : exists _, _ |- _ => destruct H as [? [? ?]]
       end.
  all: try congruence.
  all: repeat match goal with
       | H : Returns _ _ = Returns _ _ |- _ => injection H as ? ?; subst
       end.
  all: try congruence.
  all: repeat split; try reflexivity; try congruence.
  all: try (intros k Hk; destruct k; try reflexivity; congruence).
Qed.

(** C2, as the handler has it.  A tick that reaches the cache check with
    [index == previous_index] writes the stored cloud of every returned
    kind again and reads nothing.  Otherwise, when no read throws, every
    returned kind is read from [files[index]]: a kind that is decoded has
    its cloud stored and written out and [previous_index] moves to
    [index]; a kind whose read fails keeps the cloud it had, whatever index
    that came from, and is not written out. *)
Theorem cache_follows_successful_decodes p w s s1 t1 :
  pre_load p w s = (Normal tt, s1, t1) ->
  (index s1 = previous_index s1 ->
     onLoadCloud p w s = (Return, s1, t1 ++ stored_writes p s1)
     /\ existsb is_load (stored_writes p s1) = false)
  /\ (index s1 <> previous_index s1 ->
      (forall k, prop_return p k = true ->
         loadPCDFile w k (files_at (files s1) (index s1)) <> Throws) ->
      exists s2 t2,
        onLoadCloud p w s = (Normal tt, s2, t1 ++ t2)
        /\ forall k,
            (prop_return p k = true ->
             forall c, decodes w k (files_at (files s1) (index s1)) c ->
               cloud k s2 = c /\ previous_index s2 = index s1
               /\ In (out_cloud_write k c) t2)
            /\ (prop_return p k = true ->
                fails w k (files_at (files s1) (index s1)) ->
                cloud k s2 = cloud k s1
                /\ forall c, ~ In (out_cloud_write k c) t2)
            /\ (prop_return p k = false ->
                cloud k s2 = cloud k s1
                /\ (forall c, ~ In (out_cloud_write k c) t2)
                /\ forall f, ~ In (loadPCDFile_call k f) t2)).
Proof.
  intros Hpre. rewrite (onLoadCloud_reaching _ _ _ _ _ Hpre). split.
  - intros Hhit. rewrite load_clouds_cached by exact Hhit.
    split; [reflexivity | apply stored_writes_no_load].
  - intros Hmiss Hno. rewrite load_clouds_miss by exact Hmiss.
    destruct_state s1. state_simpl.
    assert (Hx := Hno XYZ). assert (Hr := Hno XYZRGB).
    assert (Hs := Hno XYZSIFT). clear Hno.
    load_cases.
    all: try (exfalso; apply Hx; first [reflexivity | assumption]).
    all: try (exfalso; apply Hr; first [reflexivity | assumption]).
    all: try (exfalso; apply Hs; first [reflexivity | assumption]).
    all: eexists _, _; (split; [reflexivity|]).
    all: intros k; destruct k.
    all: split; [|split].
    all: try (intros Hk; congruence).
    all: try (intros _ c' [st [Hd Hst]];
      match goal with
      | H : loadPCDFile _ _ _ = Returns _ _ |- _ =>
          rewrite H in Hd; injection Hd as <- <-
      end;
      try congruence; cbn [cloud cloud_xyz cloud_xyzrgb cloud_xyzsift];
      (split; [reflexivity | split; [reflexivity | in_list]])).
    all: try (intros _ [c' Hd];
      match goal with
      | H : loadPCDFile _ _ _ = Returns _ _ |- _ =>
          rewrite H in Hd; injection Hd as -> <-
      end;
      try congruence; cbn [cloud cloud_xyz cloud_xyzrgb cloud_xyzsift];
      (split; [reflexivity | intros c''; not_in])).
    all: try (intros _; cbn [cloud cloud_xyz cloud_xyzrgb cloud_xyzsift];
         (split; [reflexivity | split; [ intros c''; not_in | intros f; not_in]])).
Qed.

End LoadPhase.

(** The theorem at work: all three kinds are returned and reading the second
    one throws. *)
Lemma exception_ends_load_phase_witness :
  let p := Scenario.props_with false true true false true true true in
  let w := Scenario.world_throwing XYZRGB ["f0"%string] in
  let s := onInit Scenario.constructed in
  exists s2 t2,
    onLoadCloud p w s = (Normal tt, s2, [] ++ t2)
    /\ In (loadPCDFile_call XYZRGB "f0") t2
    /\ (forall k', (kind_rank XYZRGB <= kind_rank k')%nat ->
          cloud k' s2 = cloud k' (snd (fst (pre_load p w s)))
          /\ (forall c, ~ In (out_cloud_write k' c) t2)
          /\ (k' <> XYZRGB -> forall f, ~ In (loadPCDFile_call k' f) t2))
    /\ (forall k', (kind_rank k' < kind_rank XYZRGB)%nat ->
          prop_return p k' = true ->
          In (loadPCDFile_call k' "f0") t2
          /\ forall c, decodes w k' "f0" c ->
               cloud k' s2 = c /\ In (out_cloud_write k' c) t2).
Proof.
  intros p w s.
  apply (exception_ends_load_phase p w s (snd (fst (pre_load p w s))) []
           XYZRGB).
  - reflexivity.
  - vm_compute. discriminate.
  - reflexivity.
  - reflexivity.
  - intros k' Hlt _. destruct k'; cbn in Hlt; try lia.
    vm_compute. discriminate.
Defined.

(** C1 as stated fails: with the kinds XYZ and XYZRGB returned and a loader
    that throws on XYZ only, the tick reaches the load phase, yet the
    readable XYZRGB cloud is neither read nor written out. *)
Lemma exception_skips_remaining_kinds :
  let p := Scenario.props_with false true true false true true false in
  let w := Scenario.world_throwing XYZ ["f0"%string] in
  let s := onInit Scenario.constructed in
  fst (fst (pre_load p w s)) = Normal tt
  /\ ~ (forall k, prop_return p k = true ->
        forall c, decodes w k "f0" c ->
          In (loadPCDFile_call k "f0") (snd (tick p w s))
          /\ In (out_cloud_write k c) (snd (tick p w s))).
Proof.
  intros p w s. split; [reflexivity|].
  intros H.
  destruct (H XYZRGB eq_refl (Scenario.cloud_of XYZRGB "f0")) as [Hc _].
  - exists 0. split; [reflexivity | discriminate].
  - vm_compute in Hc. destruct Hc as [Hc | []]. discriminate Hc.
Qed.

(** The theorem at work: the second tick of a run in which XYZRGB cannot be
    read from the second file, and a third tick that finds the index where
    the second one left it. *)
Lemma cache_follows_successful_decodes_witness :
  let p := Scenario.props_with false true true false true true false in
  let w := Scenario.world_failing XYZRGB "f1" ["f0"; "f1"]%string in
  let s := ticks p w 1 (onInit Scenario.constructed) in
  let s' := onLoadPrevCloud (ticks p w 2 (onInit Scenario.constructed)) in
  (exists s2 t2,
     onLoadCloud p w s = (Normal tt, s2, [] ++ t2)
     /\ cloud XYZ s2 = Scenario.cloud_of XYZ "f1"
     /\ previous_index s2 = 1
     /\ cloud XYZRGB s2 = Scenario.cloud_of XYZRGB "f0"
     /\ In (out_cloud_write XYZ (Scenario.cloud_of XYZ "f1")) t2
     /\ forall c, ~ In (out_cloud_write XYZRGB c) t2)
  /\ onLoadCloud p w s'
     = (Return, snd (fst (pre_load p w s')),
        [] ++ stored_writes p (snd (fst (pre_load p w s')))).
Proof.
  intros p w s s'. split.
  - destruct (cache_follows_successful_decodes p w s
                (snd (fst (pre_load p w s))) [] eq_refl) as [_ H].
    destruct H as (s2 & t2 & Heq & Hk).
    + vm_compute. discriminate.
    + intros k _. destruct k; vm_compute; discriminate.
    + exists s2, t2. split; [exact Heq|].
      destruct (Hk XYZ) as (Hx & _ & _).
      destruct (Hx eq_refl (Scenario.cloud_of XYZ "f1")) as (H1 & H2 & H3).
      { exists 0. split; [reflexivity | discriminate]. }
      destruct (Hk XYZRGB) as (_ & Hr & _).
      destruct (Hr eq_refl) as (H4 & H5).
      { exists []. reflexivity. }
      repeat split; assumption.
  - destruct (cache_follows_successful_decodes p w s'
                (snd (fst (pre_load p w s'))) [] eq_refl) as [H _].
    apply H. reflexivity.
Defined.

(** C2 as stated fails: after a tick in which XYZ is decoded from the second
    file and XYZRGB is not, [previous_index] is 1 while the XYZRGB slot still
    holds the cloud of the first file; the next tick that finds
    [index == previous_index] writes that cloud out. *)
Lemma stale_slot_after_partial_failure :
  let p := Scenario.props_with false true true false true true false in
  let w := Scenario.world_failing XYZRGB "f1" ["f0"; "f1"]%string in
  let s2 := ticks p w 2 (onInit Scenario.constructed) in
  previous_index s2 = 1
  /\ cloud XYZRGB s2 = Scenario.cloud_of XYZRGB "f0"
  /\ snd (tick p w (onLoadPrevCloud s2))
     = [out_cloud_write XYZ (Scenario.cloud_of XYZ "f1");
        out_cloud_write XYZRGB (Scenario.cloud_of XYZRGB "f0")]
  /\ ~ (forall k, prop_return p k = true ->
          decodes w k (files_at (files s2) (previous_index s2)) (cloud k s2)).
Proof.
  intros p w s2. repeat split.
  intros H. destruct (H XYZRGB eq_refl) as [st [Hd Hst]].
  vm_compute in Hd. injection Hd as Hd _. congruence.
Qed.

(** ** Navigation *)

Section Navigation.

Context {PointT : Kind -> Type}.

Implicit Types (p : Props) (w : World PointT) (s : PCDSequence PointT).

Lemma end_of_sequence_count_app (t1 t2 : list (Event PointT)) :
  end_of_sequence_count (t1 ++ t2)
  = (end_of_sequence_count t1 + end_of_sequence_count t2)%nat.
Proof.
  unfold end_of_sequence_count. now rewrite filter_app, length_app.
Qed.

Lemma load_clouds_no_end_of_sequence p w s :
  end_of_sequence_count (snd (load_clouds p w s)) = 0%nat.
Proof.
  destruct (Z.eq_dec (index s) (previous_index s)) as [E | E].
  - rewrite load_clouds_cached by exact E. cbn [snd].
    destruct_props p. unfold stored_writes, requested_kinds, kinds.
    cbn [filter prop_return prop_return_xyz prop_return_xyzrgb
         prop_return_xyzsift].
    destruct rx, rr, rs; reflexivity.
  - rewrite load_clouds_miss by exact E.
    destruct_state s. load_cases. all: reflexivity.
Qed.

Lemma tick_eq p w s :
  tick p w s = (snd (fst (onLoadCloud p w s)), snd (onLoadCloud p w s)).
Proof. unfold tick. now destruct (onLoadCloud p w s) as [[o s1] t1]. Qed.

(** The end of the sequence is signalled by the first part of the handler
    only. *)
Lemma tick_end_of_sequence_count p w s :
  end_of_sequence_count (snd (tick p w s))
  = end_of_sequence_count (snd (navigate p w s)).
Proof.
  rewrite tick_eq. cbn [snd]. rewrite onLoadCloud_pre_load. unfold bind.
  rewrite pre_load_eq.
  destruct (navigate p w s) as [[[[]| |] s1] t1]; cbn [snd];
    try reflexivity.
  destruct (is_empty (files s1)); [reflexivity|].
  destruct (negb _ && negb _); [reflexivity|].
  pose proof (load_clouds_no_end_of_sequence p w
                (set_publish_cloud_flag false s1)) as H.
  destruct (load_clouds p w _) as [[o s2] t2]. cbn [snd] in *.
  rewrite end_of_sequence_count_app, H. lia.
Qed.

(** A tick at the last file, advancing, without loop. *)
Lemma tick_clamped p w s :
  prop_loop p = false ->
  prop_auto_next_cloud p = true ->
  prop_auto_prev_cloud p = false ->
  reload_sequence_flag s = false ->
  prev_cloud_flag s = false ->
  previous_index s <> -1 ->
  0 < size s <= INT_MAX ->
  index s = size s - 1 ->
  tick p w s
  = (moved_to (size s - 1) s, [out_end_of_sequence_trigger_write Unit]).
Proof.
  intros Hl Hn Hp Hr Hf Hpi Hsz Hi.
  rewrite tick_eq, onLoadCloud_pre_load. unfold bind.
  rewrite pre_load_eq, navigate_steady by (try assumption; lia).
  cbv zeta. unfold moved_index. rewrite Hl, Hn, Hp, Hf. cbn [orb].
  destruct (Z.ltb_spec (index s + 1 - 0) 0); [lia|].
  destruct (Z.leb_spec (size s) (index s + 1 - 0)); [|lia].
  reflexivity.
Qed.

(** C3, as the handler has it.  With loop mode off, auto-advance on and no
    retreat (auto-retreat off, no retreat requested), after a first load
    ([previous_index] is not -1) and with no reload pending, once the index
    is at the last file of a non-empty sequence that an [int] can index,
    every further tick of a run without requests signals the end of the
    sequence, once, writes nothing else and leaves the index where it is:
    the signal comes once per tick for as long as the index stays there.
    And in any tick that takes the navigation branch (no reload pending,
    [previous_index] not -1) with the index within such a sequence, the
    signal is given exactly once when the moved index leaves the range,
    with or without loop mode, and not at all otherwise. *)
Theorem end_of_sequence_on_every_clamped_tick :
  (forall p (ws : list (World PointT)) s,
     prop_loop p = false ->
     prop_auto_next_cloud p = true ->
     prop_auto_prev_cloud p = false ->
     reload_sequence_flag s = false ->
     prev_cloud_flag s = false ->
     previous_index s <> -1 ->
     0 < size s <= INT_MAX ->
     index s = size s - 1 ->
     Forall (fun r => index (fst r) = size s - 1
                      /\ snd r = [out_end_of_sequence_trigger_write Unit])
       (run p ws s))
  /\ (forall p w s,
        reload_sequence_flag s = false ->
        previous_index s <> -1 ->
        size s <= INT_MAX ->
        0 <= index s < size s ->
        end_of_sequence_count (snd (tick p w s))
        = if (moved_index p s <? 0) || (size s <=? moved_index p s)
          then 1%nat else 0%nat).
Proof.
  split.
  - intros p ws. induction ws as [|w ws IH]; intros s Hl Hn Hp Hr Hf Hpi Hsz Hi.
    + constructor.
    + cbn [run]. rewrite tick_clamped by assumption. cbn [fst].
      constructor.
      * split; [|reflexivity]. destruct_state s; reflexivity.
      * assert (Hs : size (moved_to (size s - 1) s) = size s)
          by (destruct_state s; reflexivity).
        rewrite <- Hs at 1. 
        specialize (IH (moved_to (size s - 1) s)).
        rewrite Hs in IH. 
        apply IH; try assumption; destruct_state s; try reflexivity;
          assumption.
  - intros p w s Hr Hpi Hsz Hi.
    rewrite tick_end_of_sequence_count, navigate_steady by assumption.
    cbv zeta.
    destruct (moved_index p s <? 0); cbn [orb].
    + destruct (prop_loop p); reflexivity.
    + destruct (size s <=? moved_index p s);
        [destruct (prop_loop p)|]; reflexivity.
Qed.

End Navigation.

(** The theorem at work: the state after the three files were served. *)
Lemma end_of_sequence_on_every_clamped_tick_witness :
  let p := Scenario.props_with false true true false true false false in
  let w := Scenario.world_of ["f0"; "f1"; "f2"]%string in
  let s := ticks p w 3 (onInit Scenario.constructed) in
  Forall (fun r => index (fst r) = size s - 1
                   /\ snd r = [out_end_of_sequence_trigger_write Unit])
    (run p [w; w; w] s)
  /\ end_of_sequence_count (snd (tick p w s)) = 1%nat.
Proof.
  intros p w s.
  destruct (@end_of_sequence_on_every_clamped_tick Scenario.Pt) as [H1 H2].
  split.
  - apply H1; try reflexivity.
    + vm_compute. discriminate.
    + vm_compute. split; [reflexivity | discriminate].
  - rewrite H2; try reflexivity.
    + vm_compute. discriminate.
    + vm_compute. discriminate.
    + vm_compute. split; [discriminate | reflexivity].
Defined.

(** C3 as stated fails: in scenario A continued for two more ticks, the
    index stays at 2 from the third tick on and each of the ticks 4, 5 and 6
    signals the end of the sequence. *)
Lemma end_of_sequence_repeats_while_clamped :
  let p := Scenario.props_with false true true false true false false in
  let w := Scenario.world_of ["f0"; "f1"; "f2"]%string in
  let r := run p [w; w; w; w; w; w] (onInit Scenario.constructed) in
  map (fun x => index (fst x)) r = [0; 1; 2; 2; 2; 2]
  /\ map (fun x => end_of_sequence_count (snd x)) r
     = [0; 0; 0; 1; 1; 1]%nat
  /\ ~ (end_of_sequence_count (List.concat (map snd r)) = 1%nat).
Proof.
  intros p w r. split; [reflexivity|]. split; [reflexivity|].
  vm_compute. discriminate.
Qed.

(** C4 on the handler.  A file was served, the directory is then emptied and
    the sequence reloaded: the sequence is empty and [previous_index] is 0.
    The next tick moves the index all the same, signals the end of the
    sequence and leaves the index at -1; with loop mode on and auto-retreat,
    one tick gives the signal twice. *)
Lemma empty_sequence_still_navigates :
  let full := Scenario.world_of ["f0"%string] in
  let empty := Scenario.world_of [] in
  let p := Scenario.props_with false true true false true false false in
  let s1 := fst (tick p full (onInit Scenario.constructed)) in
  let s2 := fst (tick p empty (onSequenceReload s1)) in
  let q := Scenario.props_with true true false true true false false in
  let s1' := fst (tick q full (onInit Scenario.constructed)) in
  let s2' := fst (tick q empty (onSequenceReload s1')) in
  reachable p s2
  /\ (files s2 = [] /\ index s2 = 0 /\ previous_index s2 = 0)
  /\ index (fst (tick p empty s2)) = -1
  /\ snd (tick p empty s2) = [out_end_of_sequence_trigger_write Unit]
  /\ (files s2' = [] /\ index s2' = 0 /\ previous_index s2' = 0)
  /\ snd (tick q empty s2')
     = [out_end_of_sequence_trigger_write Unit;
        out_end_of_sequence_trigger_write Unit].
Proof.
  cbv zeta. split; [|repeat split].
  apply reach_tick; [|vm_compute; discriminate].
  apply reach_reload.
  apply reach_tick; [|vm_compute; discriminate].
  now apply reach_init.
Qed.

(** ** Whole ticks *)

Section Ticks.

Context {PointT : Kind -> Type}.

Implicit Types (p : Props) (w : World PointT) (s : PCDSequence PointT).

(** A tick that reaches the load phase and decodes every requested
    kind. *)
Lemma tick_loads p w s s1 t1 (c : forall k, PointCloud PointT k) :
  pre_load p w s = (Normal tt, s1, t1) ->
  index s1 <> previous_index s1 ->
  (forall k, prop_return p k = true ->
     decodes w k (files_at (files s1) (index s1)) (c k)) ->
  exists s',
    tick p w s
    = (s', t1 ++ loaded_writes p (files_at (files s1) (index s1)) c)
    /\ files s' = files s1 /\ index s' = index s1
    /\ next_cloud_flag s' = next_cloud_flag s1
    /\ prev_cloud_flag s' = prev_cloud_flag s1
    /\ reload_sequence_flag s' = reload_sequence_flag s1
    /\ publish_cloud_flag s' = publish_cloud_flag s1
    /\ (requested_kinds p <> [] -> previous_index s' = index s1)
    /\ (forall k, prop_return p k = true -> cloud k s' = c k).
Proof.
  intros Hpre Hmiss Hdec.
  pose proof (load_clouds_all_decoded p w s1 c Hmiss Hdec) as H.
  unfold tick. rewrite (onLoadCloud_reaching _ _ _ _ _ Hpre).
  destruct (load_clouds p w s1) as [[o s2] t2].
  destruct H as (_ & -> & H). exists s2. split; [reflexivity | exact H].
Qed.

(** The first tick after a reload request. *)
Lemma tick_first p w s (c : forall k, PointCloud PointT k) :
  prop_auto_publish_cloud p = true ->
  reload_sequence_flag s = true ->
  found_files p w <> [] ->
  previous_index s <> 0 ->
  (forall k, prop_return p k = true ->
     decodes w k (files_at (found_files p w) 0) (c k)) ->
  exists s',
    tick p w s = (s', loaded_writes p (files_at (found_files p w) 0) c)
    /\ files s' = found_files p w /\ index s' = 0
    /\ prev_cloud_flag s' = prev_cloud_flag s
    /\ reload_sequence_flag s' = false
    /\ (requested_kinds p <> [] -> previous_index s' = 0)
    /\ (forall k, prop_return p k = true -> cloud k s' = c k).
Proof.
  intros Hap Hr Hne Hpi Hdec.
  assert (Hpre : pre_load p w s
                 = (Normal tt,
                    set_publish_cloud_flag false
                      (set_reload_sequence_flag false
                         (set_index 0 (set_files (found_files p w) s))),
                    [])).
  { rewrite pre_load_eq, navigate_reload by exact Hr.
    cbn [files set_reload_sequence_flag set_index set_files].
    destruct (found_files p w); [congruence|]. cbn [is_empty].
    rewrite Hap. reflexivity. }
  destruct (tick_loads p w s _ _ c Hpre) as (s' & Ht & H).
  - destruct_state s. st. congruence.
  - destruct_state s. exact Hdec.
  - exists s'. destruct_state s. st. subst. rewrite Ht. tauto.
Qed.

(** A tick that advances within the sequence. *)
Lemma tick_advance p w s (c : forall k, PointCloud PointT k) :
  prop_auto_next_cloud p = true ->
  prop_auto_prev_cloud p = false ->
  prop_auto_publish_cloud p = true ->
  reload_sequence_flag s = false ->
  prev_cloud_flag s = false ->
  previous_index s = index s ->
  0 <= index s ->
  index s + 1 < size s <= INT_MAX ->
  (forall k, prop_return p k = true ->
     decodes w k (files_at (files s) (index s + 1)) (c k)) ->
  exists s',
    tick p w s
    = (s', loaded_writes p (files_at (files s) (index s + 1)) c)
    /\ files s' = files s /\ index s' = index s + 1
    /\ prev_cloud_flag s' = false
    /\ reload_sequence_flag s' = false
    /\ (requested_kinds p <> [] -> previous_index s' = index s + 1)
    /\ (forall k, prop_return p k = true -> cloud k s' = c k).
Proof.
  intros Hn Hp Hap Hr Hf Hpi Hi Hsz Hdec.
  assert (Hpre : pre_load p w s
                 = (Normal tt,
                    set_publish_cloud_flag false
                      (moved_to (index s + 1) s), [])).
  { rewrite pre_load_eq, navigate_steady by (try assumption; lia).
    cbv zeta. unfold moved_index. rewrite Hn, Hp, Hf. cbn [orb].
    rewrite Z.sub_0_r.
    destruct (Z.ltb_spec (index s + 1) 0); [lia|].
    destruct (Z.leb_spec (size s) (index s + 1)); [lia|].
    assert (Hne : is_empty (files (moved_to (index s + 1) s)) = false).
    { destruct_state s. unfold size in *. cbn in *.
      destruct fs; [cbn in *; lia | reflexivity]. }
    rewrite Hne, Hap. reflexivity. }
  destruct (tick_loads p w s _ _ c Hpre) as (s' & Ht & H).
  - destruct_state s. st. lia.
  - destruct_state s. exact Hdec.
  - exists s'. destruct_state s. st. subst. rewrite Ht. tauto.
Qed.

(** A tick that wraps from the last file to the first. *)
Lemma tick_wrap p w s (c : forall k, PointCloud PointT k) :
  prop_loop p = true ->
  prop_auto_next_cloud p = true ->
  prop_auto_prev_cloud p = false ->
  prop_auto_publish_cloud p = true ->
  reload_sequence_flag s = false ->
  prev_cloud_flag s = false ->
  previous_index s = index s ->
  index s = size s - 1 ->
  1 < size s <= INT_MAX ->
  (forall k, prop_return p k = true ->
     decodes w k (files_at (files s) 0) (c k)) ->
  exists s',
    tick p w s
    = (s', out_end_of_sequence_trigger_write Unit
           :: loaded_writes p (files_at (files s) 0) c)
    /\ files s' = files s /\ index s' = 0
    /\ prev_cloud_flag s' = false
    /\ reload_sequence_flag s' = false
    /\ (requested_kinds p <> [] -> previous_index s' = 0)
    /\ (forall k, prop_return p k = true -> cloud k s' = c k).
Proof.
  intros Hl Hn Hp Hap Hr Hf Hpi Hi Hsz Hdec.
  assert (Hpre : pre_load p w s
                 = (Normal tt,
                    set_publish_cloud_flag false (moved_to 0 s),
                    [out_end_of_sequence_trigger_write Unit])).
  { rewrite pre_load_eq, navigate_steady by (try assumption; lia).
    cbv zeta. unfold moved_index. rewrite Hl, Hn, Hp, Hf. cbn [orb].
    rewrite Z.sub_0_r.
    destruct (Z.ltb_spec (index s + 1) 0); [lia|].
    destruct (Z.leb_spec (size s) (index s + 1)); [|lia].
    assert (Hne : is_empty (files (moved_to 0 s)) = false).
    { destruct_state s. unfold size in *. cbn in *.
      destruct fs; [cbn in *; lia | reflexivity]. }
    rewrite Hne, Hap. reflexivity. }
  destruct (tick_loads p w s _ _ c Hpre) as (s' & Ht & H).
  - destruct_state s. st. lia.
  - destruct_state s. exact Hdec.
  - exists s'. destruct_state s. st. subst. rewrite Ht. tauto.
Qed.

Lemma size_files s l : files s = l -> size s = Z.of_nat (List.length l).
Proof. intros <-. reflexivity. Qed.

(** C6.  Scenario A: the sequence [f0, f1, f2], loop mode off,
    auto-advance and auto-publish on, at least one kind returned and every
    read decoding.  From the initialised component, tick 1 reads and
    writes out [f0] at index 0, tick 2 [f1] at index 1, tick 3 [f2] at
    index 2, and tick 4 signals the end of the sequence, leaves the index
    at 2 and writes no cloud. *)
Theorem scenario_A p w s0 f0 f1 f2
  (c : forall k, string -> PointCloud PointT k) :
  prop_loop p = false ->
  prop_auto_next_cloud p = true ->
  prop_auto_prev_cloud p = false ->
  prop_auto_publish_cloud p = true ->
  requested_kinds p <> [] ->
  found_files p w = [f0; f1; f2] ->
  (forall k f, prop_return p k = true -> In f [f0; f1; f2] ->
     decodes w k f (c k f)) ->
  exists s1 s2 s3 s4,
    run p [w; w; w; w] (onInit s0)
    = [(s1, loaded_writes p f0 (fun k => c k f0));
       (s2, loaded_writes p f1 (fun k => c k f1));
       (s3, loaded_writes p f2 (fun k => c k f2));
       (s4, [out_end_of_sequence_trigger_write Unit])]
    /\ index s1 = 0 /\ index s2 = 1 /\ index s3 = 2 /\ index s4 = 2.
Proof.
  intros Hl Hn Hp Hap Hreq Hfound Hdec.
  destruct (tick_first p w (onInit s0) (fun k => c k f0))
    as (s1 & Ht1 & Hf1 & Hi1 & Hpf1 & Hr1 & Hpi1 & _).
  { exact Hap. }
  { reflexivity. }
  { rewrite Hfound. discriminate. }
  { cbn. discriminate. }
  { rewrite Hfound. intros k Hk. apply Hdec; [exact Hk | in_list]. }
  rewrite Hfound in Ht1, Hf1. change (files_at [f0; f1; f2] 0) with f0 in Ht1.
  change (prev_cloud_flag (onInit s0)) with false in Hpf1.
  specialize (Hpi1 Hreq).
  assert (Hsz1 : size s1 = 3) by (now rewrite (size_files s1 _ Hf1)).
  destruct (tick_advance p w s1 (fun k => c k f1))
    as (s2 & Ht2 & Hf2 & Hi2 & Hpf2 & Hr2 & Hpi2 & _);
    try assumption.
  { congruence. }
  { lia. }
  { rewrite Hsz1, Hi1. unfold INT_MAX, int_bits. cbn. lia. }
  { rewrite Hf1, Hi1. intros k Hk. apply Hdec; [exact Hk | in_list]. }
  rewrite Hf1, Hi1 in *. change (files_at [f0; f1; f2] (0 + 1)) with f1 in Ht2.
  specialize (Hpi2 Hreq).
  assert (Hsz2 : size s2 = 3) by (now rewrite (size_files s2 _ Hf2)).
  destruct (tick_advance p w s2 (fun k => c k f2))
    as (s3 & Ht3 & Hf3 & Hi3 & Hpf3 & Hr3 & Hpi3 & _);
    try assumption.
  { congruence. }
  { lia. }
  { rewrite Hsz2, Hi2. unfold INT_MAX, int_bits. cbn. lia. }
  { rewrite Hf2, Hi2. intros k Hk. apply Hdec; [exact Hk | in_list]. }
  rewrite Hf2, Hi2 in *.
  change (files_at [f0; f1; f2] (0 + 1 + 1)) with f2 in Ht3.
  specialize (Hpi3 Hreq).
  assert (Hsz3 : size s3 = 3) by (now rewrite (size_files s3 _ Hf3)).
  assert (Ht4 := tick_clamped p w s3 Hl Hn Hp Hr3 Hpf3).
  rewrite Hsz3 in Ht4.
  exists s1, s2, s3, (moved_to (3 - 1) s3).
  cbn [run]. rewrite Ht1. cbn [fst]. rewrite Ht2. cbn [fst].
  rewrite Ht3. cbn [fst]. rewrite Ht4.
  - repeat split; try assumption; try lia.
  - lia.
  - unfold INT_MAX, int_bits. cbn. lia.
  - lia.
Qed.

End Ticks.

(** Scenario A on three readable files, the XYZ kind returned. *)
Lemma scenario_A_witness :
  let p := Scenario.props_with false true true false true false false in
  let w := Scenario.world_of ["f0"; "f1"; "f2"]%string in
  exists s1 s2 s3 s4,
    run p [w; w; w; w] (onInit Scenario.constructed)
    = [(s1, loaded_writes p "f0" (fun k => Scenario.cloud_of k "f0"));
       (s2, loaded_writes p "f1" (fun k => Scenario.cloud_of k "f1"));
       (s3, loaded_writes p "f2" (fun k => Scenario.cloud_of k "f2"));
       (s4, [out_end_of_sequence_trigger_write Unit])]
    /\ index s1 = 0 /\ index s2 = 1 /\ index s3 = 2 /\ index s4 = 2.
Proof.
  intros p w.
  apply (scenario_A p w Scenario.constructed "f0" "f1" "f2"
           Scenario.cloud_of); try reflexivity.
  - vm_compute. discriminate.
  - intros k f _ _. exists 0. split; [reflexivity | discriminate].
Defined.

(** ** Playback in loop mode *)

Section Playback.

Context {PointT : Kind -> Type}.

Implicit Types (p : Props) (w : World PointT) (s : PCDSequence PointT).

(** What a tick adds to the first part of the handler: the publish flag,
    the stored clouds and [previous_index]. *)
Lemma tick_frame p w s :
  let s1 := snd (fst (navigate p w s)) in
  let s' := fst (tick p w s) in
  files s' = files s1 /\ index s' = index s1
  /\ next_cloud_flag s' = next_cloud_flag s1
  /\ prev_cloud_flag s' = prev_cloud_flag s1
  /\ reload_sequence_flag s' = false
  /\ (previous_index s' = previous_index s
      \/ previous_index s' = index s').
Proof.
  cbv zeta. rewrite tick_eq. cbn [fst]. rewrite onLoadCloud_pre_load.
  unfold bind. rewrite pre_load_eq.
  pose proof (navigate_frame p w s) as Hn.
  destruct (navigate p w s) as [[o s1] t1]. cbn [fst snd].
  destruct Hn as (Ho & _ & Hr & Hpi & _).
  destruct o as [[]| |]; cbn [fst snd]; try tauto.
  destruct (is_empty (files s1)); cbn [fst snd]; [tauto|].
  destruct (negb _ && negb _); cbn [fst snd]; [tauto|].
  pose proof (load_clouds_frame p w (set_publish_cloud_flag false s1))
    as Hl.
  destruct (load_clouds p w _) as [[o s2] t2]. cbn [fst snd].
  destruct_state s1. st.
  destruct Hl as (_ & -> & -> & -> & -> & -> & _ & Hl).
  repeat split; try assumption. destruct Hl; [left | right]; congruence.
Qed.

(** With loop mode and auto-advance on and no retreat requested, a tick
    in the steady state moves the index by one step, modulo the length of
    the sequence; the step is 0 when auto-retreat is on as well. *)
Lemma tick_steady_loop p w s :
  prop_loop p = true ->
  prop_auto_next_cloud p = true ->
  reload_sequence_flag s = false ->
  prev_cloud_flag s = false ->
  previous_index s <> -1 ->
  size s <= INT_MAX ->
  0 <= index s < size s ->
  let s' := fst (tick p w s) in
  files s' = files s
  /\ reload_sequence_flag s' = false
  /\ prev_cloud_flag s' = false
  /\ previous_index s' <> -1
  /\ index s'
     = (index s + (if prop_auto_prev_cloud p then 0 else 1)) mod size s.
Proof.
  intros Hl Hn Hr Hf Hpi Hsz Hi. cbv zeta.
  destruct (tick_frame p w s) as (H1 & H2 & _ & H4 & H5 & H6).
  rewrite navigate_steady in H1, H2, H4 by assumption. cbv zeta in *.
  unfold moved_index in *. rewrite Hl, Hn, Hf in *. cbn [orb] in *.
  assert (Hidx : index (fst (tick p w s))
     = (index s + (if prop_auto_prev_cloud p then 0 else 1)) mod size s
     /\ files (fst (tick p w s)) = files s
     /\ prev_cloud_flag (fst (tick p w s)) = false).
  { destruct (prop_auto_prev_cloud p); cbn [orb] in *.
    - destruct (Z.ltb_spec (index s + 1 - 1) 0); [lia|].
      destruct (Z.leb_spec (size s) (index s + 1 - 1)); [lia|].
      cbn [fst snd] in *. destruct_state s. st.
      rewrite Z.mod_small by lia. repeat split; [lia | assumption..].
    - destruct (Z.ltb_spec (index s + 1 - 0) 0); [lia|].
      destruct (Z.leb_spec (size s) (index s + 1 - 0)).
      + cbn [fst snd] in *. destruct_state s. st.
        replace (i + 1) with (size (mkPCDSequence fs i pi nf pf rf bf cx cr cs)) by lia.
        rewrite Z.mod_same by lia. repeat split; assumption.
      + cbn [fst snd] in *. destruct_state s. st.
        rewrite Z.mod_small by lia. repeat split; [lia | assumption..]. }
  destruct Hidx as (Hidx & Hfs & Hpf).
  repeat split; try assumption.
  assert (0 <= index (fst (tick p w s))).
  { rewrite Hidx. apply Z.mod_pos_bound. lia. }
  destruct H6; lia.
Qed.

(** The rest of a tick once the first part has put the index at 0 in a
    non-empty sequence: when it leaves [previous_index] at -1, the next
    tick changes nothing. *)
Lemma tick_idle p w x :
  reload_sequence_flag x = false ->
  index x = 0 ->
  files x <> [] ->
  let s1 :=
    if negb (prop_auto_publish_cloud p) && negb (publish_cloud_flag x)
    then x
    else snd (fst (load_clouds p w (set_publish_cloud_flag false x))) in
  previous_index s1 = -1 ->
  fst (tick p w s1) = s1.
Proof.
  intros Hr Hi Hne. cbv zeta.
  assert (Hstart : forall y,
    reload_sequence_flag y = false -> index y = 0 ->
    previous_index y = -1 -> files y = files x ->
    pre_load p w y
    = if negb (prop_auto_publish_cloud p) && negb (publish_cloud_flag y)
      then (Return, y, [])
      else (Normal tt, set_publish_cloud_flag false y, [])).
  { intros y Hy1 Hy2 Hy3 Hy4.
    rewrite pre_load_eq, navigate_start by assumption.
    assert (E : set_index 0 y = y) by (destruct_state y; st; now subst).
    rewrite E, Hy4. destruct (files x); [congruence | reflexivity]. }
  destruct (negb (prop_auto_publish_cloud p) && negb (publish_cloud_flag x))
    eqn:Eg.
  - intros Hpi. rewrite tick_eq, onLoadCloud_pre_load. unfold bind.
    rewrite Hstart, Eg by (assumption || reflexivity). reflexivity.
  - set (y := set_publish_cloud_flag false x).
    assert (Hy : reload_sequence_flag y = false /\ index y = 0
                 /\ files y = files x /\ publish_cloud_flag y = false
                 /\ previous_index y = previous_index x
                 /\ set_publish_cloud_flag false y = y).
    { subst y. destruct_state x. st. tauto. }
    destruct Hy as (Hy1 & Hy2 & Hy3 & Hy4 & Hy5 & Hy6).
    intros Hpi.
    assert (Hs1 : snd (fst (load_clouds p w y)) = y).
    { destruct (Z.eq_dec (index y) (previous_index y)) as [E | E].
      - rewrite load_clouds_cached by exact E. reflexivity.
      - apply load_clouds_nothing_loaded; [exact E | lia]. }
    rewrite Hs1 in *.
    rewrite tick_eq, onLoadCloud_pre_load. unfold bind.
    rewrite Hstart by (assumption || reflexivity).
    rewrite Hy4. destruct (prop_auto_publish_cloud p); cbn [negb andb];
      [|reflexivity].
    rewrite Hy6.
    destruct (load_clouds p w y) as [[o s2] t2]. cbn [fst snd] in *.
    exact Hs1.
Qed.

Lemma tick_after_navigate p w s x t :
  navigate p w s = (Normal tt, x, t) ->
  files x <> [] ->
  fst (tick p w s)
  = if negb (prop_auto_publish_cloud p) && negb (publish_cloud_flag x)
    then x
    else snd (fst (load_clouds p w (set_publish_cloud_flag false x))).
Proof.
  intros Hn Hne. rewrite tick_eq, onLoadCloud_pre_load. unfold bind.
  rewrite pre_load_eq, Hn.
  destruct (files x); [congruence|]. cbn [is_empty].
  destruct (negb _ && negb _); [reflexivity|].
  now destruct (load_clouds p w _) as [[o s2] t2].
Qed.

(** The first of a series of ticks in loop mode: it leaves a sequence
    with the index in range, and when it decodes nothing the later ticks
    change nothing. *)
Lemma first_tick_loop p w s :
  prop_loop p = true ->
  prop_auto_next_cloud p = true ->
  prev_cloud_flag s = false ->
  let F := if reload_sequence_flag s then found_files p w else files s in
  F <> [] ->
  Z.of_nat (List.length F) <= INT_MAX ->
  (reload_sequence_flag s = false -> previous_index s <> -1 ->
   0 <= index s < size s) ->
  let s1 := fst (tick p w s) in
  files s1 = F
  /\ reload_sequence_flag s1 = false
  /\ prev_cloud_flag s1 = false
  /\ 0 <= index s1 < size s1
  /\ (previous_index s1 = -1 -> fst (tick p w s1) = s1).
Proof.
  intros Hl Hn Hf F Hne Hsz Hi s1.
  assert (Hpos : 0 < Z.of_nat (List.length F)).
  { destruct F; [congruence | cbn; lia]. }
  destruct (reload_sequence_flag s) eqn:Hr;
    [|destruct (Z.eq_dec (previous_index s) (-1)) as [Hpi | Hpi]].
  - destruct (tick_frame p w s) as (H1 & H2 & _ & H4 & H5 & _).
    fold s1 in H1, H2, H4, H5.
    pose proof (navigate_reload p w s Hr) as Hnav.
    rewrite Hnav in H1, H2, H4. cbn [fst snd] in H1, H2, H4.
    assert (Hfs : files s1 = F) by (destruct_state s; exact H1).
    assert (Hix : index s1 = 0) by (destruct_state s; exact H2).
    assert (Hpf : prev_cloud_flag s1 = false)
      by (destruct_state s; st; congruence).
    repeat split; try assumption; try lia.
    + unfold size. rewrite Hfs. lia.
    + subst s1. rewrite (tick_after_navigate _ _ _ _ _ Hnav).
      * apply tick_idle.
        -- destruct_state s; reflexivity.
        -- destruct_state s; reflexivity.
        -- destruct_state s; exact Hne.
      * destruct_state s; exact Hne.
  - destruct (tick_frame p w s) as (H1 & H2 & _ & H4 & H5 & _).
    fold s1 in H1, H2, H4, H5.
    pose proof (navigate_start p w s Hr Hpi) as Hnav.
    rewrite Hnav in H1, H2, H4. cbn [fst snd] in H1, H2, H4.
    assert (Hfs : files s1 = F) by (destruct_state s; exact H1).
    assert (Hix : index s1 = 0) by (destruct_state s; exact H2).
    assert (Hpf : prev_cloud_flag s1 = false)
      by (destruct_state s; st; congruence).
    repeat split; try assumption; try lia.
    + unfold size. rewrite Hfs. lia.
    + subst s1. rewrite (tick_after_navigate _ _ _ _ _ Hnav).
      * apply tick_idle.
        -- destruct_state s; exact Hr.
        -- destruct_state s; reflexivity.
        -- destruct_state s; exact Hne.
      * destruct_state s; exact Hne.
  - specialize (Hi eq_refl Hpi).
    destruct (tick_steady_loop p w s) as (H1 & H2 & H3 & H4 & H5);
      try assumption.
    fold s1 in H1, H2, H3, H4, H5.
    repeat split; try assumption.
    + rewrite H5. apply Z.mod_pos_bound. lia.
    + rewrite H5. unfold size. rewrite H1. apply Z.mod_pos_bound.
      unfold size in Hi. lia.
    + intros; contradiction.
Qed.

Lemma ticks_fixpoint p w s n :
  fst (tick p w s) = s -> ticks p w n s = s.
Proof.
  intros H. induction n as [|n IH]; [reflexivity|].
  cbn [ticks]. now rewrite H.
Qed.

Lemma ticks_steady_loop p w n s :
  prop_loop p = true ->
  prop_auto_next_cloud p = true ->
  reload_sequence_flag s = false ->
  prev_cloud_flag s = false ->
  previous_index s <> -1 ->
  size s <= INT_MAX ->
  0 <= index s < size s ->
  index (ticks p w n s)
  = (index s + Z.of_nat n * (if prop_auto_prev_cloud p then 0 else 1))
    mod size s.
Proof.
  intros Hl Hn. revert s.
  induction n as [|n IH]; intros s Hr Hf Hpi Hsz Hi.
  - cbn [ticks]. rewrite Z.mul_0_l, Z.add_0_r, Z.mod_small; lia.
  - cbn [ticks].
    destruct (tick_steady_loop p w s) as (H1 & H2 & H3 & H4 & H5);
      try assumption.
    assert (Hs : size (fst (tick p w s)) = size s)
      by (unfold size; now rewrite H1).
    rewrite IH; try assumption.
    + rewrite Hs, H5, Zplus_mod_idemp_l. f_equal. lia.
    + lia.
    + rewrite Hs, H5. apply Z.mod_pos_bound. lia.
Qed.

Lemma loop_indices_periodic_aux p w s :
  prop_loop p = true ->
  prop_auto_next_cloud p = true ->
  prev_cloud_flag s = false ->
  let F := if reload_sequence_flag s then found_files p w else files s in
  F <> [] ->
  Z.of_nat (List.length F) <= INT_MAX ->
  (reload_sequence_flag s = false -> previous_index s <> -1 ->
   0 <= index s < size s) ->
  forall t, (1 <= t)%nat ->
    index (ticks p w (t + List.length F) s) = index (ticks p w t s).
Proof.
  intros Hl Hn Hf F Hne Hsz Hi t Ht.
  destruct (first_tick_loop p w s Hl Hn Hf Hne Hsz Hi)
    as (H1 & H2 & H3 & H4 & H5).
  destruct t as [|t]; [lia|]. cbn [ticks Nat.add].
  set (s1 := fst (tick p w s)) in *.
  destruct (Z.eq_dec (previous_index s1) (-1)) as [Hpi | Hpi].
  - now rewrite !ticks_fixpoint by auto.
  - assert (Hs : size s1 = Z.of_nat (List.length F))
      by (unfold size; now rewrite H1).
    rewrite !ticks_steady_loop by (try assumption; lia).
    rewrite Hs, Nat2Z.inj_add, Z.mul_add_distr_r, Z.add_assoc.
    rewrite (Z.mul_comm (Z.of_nat (List.length F))).
    apply Z.mod_add.
    destruct F; [congruence | cbn; lia].
Qed.

(** A tick leaves the index of a non-empty sequence in range. *)
Lemma tick_index_in_range p w s :
  let F := if reload_sequence_flag s then found_files p w else files s in
  Z.of_nat (List.length F) <= INT_MAX ->
  (reload_sequence_flag s = false -> files s <> [] ->
   0 <= index s < size s) ->
  let s' := fst (tick p w s) in
  files s' = F /\ (F <> [] -> 0 <= index s' < size s').
Proof.
  intros F Hsz Hi s'.
  destruct (tick_frame p w s) as (H1 & H2 & _). fold s' in H1, H2.
  unfold size. rewrite H1, H2. clear H1 H2. subst F.
  destruct (reload_sequence_flag s) eqn:Hr;
    [|destruct (Z.eq_dec (previous_index s) (-1)) as [Hpi | Hpi]].
  - rewrite navigate_reload by exact Hr. destruct_state s. st.
    split; [reflexivity|]. intros Hne.
    destruct (found_files p w); [congruence | cbn; lia].
  - rewrite navigate_start by assumption. destruct_state s. st.
    split; [reflexivity|]. intros Hne.
    destruct fs; [congruence | cbn; lia].
  - destruct (files s) as [|f fs'] eqn:Hfs.
    + pose proof (navigate_frame p w s) as Hn.
      destruct (navigate p w s) as [[o s1] t1]. cbn [fst snd].
      destruct Hn as (_ & _ & _ & _ & _ & _ & Hf & _).
      rewrite (Hf Hr), Hfs. split; [reflexivity | congruence].
    + assert (Hne : f :: fs' <> []) by discriminate.
      specialize (Hi eq_refl Hne).
      assert (Hsz' : size s <= INT_MAX) by (unfold size; now rewrite Hfs).
      rewrite navigate_steady by assumption. cbv zeta.
      assert (Hsize : size s = Z.of_nat (List.length (f :: fs')))
        by (unfold size; now rewrite Hfs).
      assert (Hfiles : forall j, files (moved_to j s) = f :: fs'
                                 /\ index (moved_to j s) = j)
        by (intros j; destruct_state s; st; now subst).
      destruct (Z.ltb_spec (moved_index p s) 0);
        [|destruct (Z.leb_spec (size s) (moved_index p s))];
        try destruct (prop_loop p); cbn [fst snd];
        match goal with
        | |- context [moved_to ?j s] =>
            destruct (Hfiles j) as [-> ->]
        end;
        (split; [reflexivity | intros _; lia]).
Qed.

(** In every reachable state the file list fits an [int] and, when it is
    not empty, the index is within it. *)
Lemma reachable_index_in_range p s :
  reachable p s ->
  size s <= INT_MAX /\ (files s <> [] -> 0 <= index s < size s).
Proof.
  induction 1 as [s Hs | w s Hreach [IH1 IH2] Hw | s _ IH | s _ IH
                 | s _ IH | s _ IH].
  - destruct_state s. unfold size. cbn in *. subst.
    split; [unfold INT_MAX, int_bits; cbn; lia | congruence].
  - destruct (tick_index_in_range p w s) as [H1 H2].
    + destruct (reload_sequence_flag s); assumption.
    + intros _. exact IH2.
    + unfold size in *. rewrite H1 in *.
      split; [destruct (reload_sequence_flag s); assumption | exact H2].
  - now destruct_state s.
  - now destruct_state s.
  - now destruct_state s.
  - now destruct_state s.
Qed.

(** Scenario B: scenario A in loop mode. *)
Lemma scenario_B p w s0 f0 f1 f2
  (c : forall k, string -> PointCloud PointT k) :
  prop_loop p = true ->
  prop_auto_next_cloud p = true ->
  prop_auto_prev_cloud p = false ->
  prop_auto_publish_cloud p = true ->
  requested_kinds p <> [] ->
  found_files p w = [f0; f1; f2] ->
  (forall k f, prop_return p k = true -> In f [f0; f1; f2] ->
     decodes w k f (c k f)) ->
  exists s1 s2 s3 s4,
    run p [w; w; w; w] (onInit s0)
    = [(s1, loaded_writes p f0 (fun k => c k f0));
       (s2, loaded_writes p f1 (fun k => c k f1));
       (s3, loaded_writes p f2 (fun k => c k f2));
       (s4, out_end_of_sequence_trigger_write Unit
            :: loaded_writes p f0 (fun k => c k f0))]
    /\ index s3 = 2 /\ index s4 = 0.
Proof.
  intros Hl Hn Hp Hap Hreq Hfound Hdec.
  destruct (tick_first p w (onInit s0) (fun k => c k f0))
    as (s1 & Ht1 & Hf1 & Hi1 & Hpf1 & Hr1 & Hpi1 & _).
  { exact Hap. }
  { reflexivity. }
  { rewrite Hfound. discriminate. }
  { cbn. discriminate. }
  { rewrite Hfound. intros k Hk. apply Hdec; [exact Hk | in_list]. }
  rewrite Hfound in Ht1, Hf1.
  change (files_at [f0; f1; f2] 0) with f0 in Ht1.
  change (prev_cloud_flag (onInit s0)) with false in Hpf1.
  specialize (Hpi1 Hreq).
  assert (Hsz1 : size s1 = 3) by (now rewrite (size_files s1 _ Hf1)).
  destruct (tick_advance p w s1 (fun k => c k f1))
    as (s2 & Ht2 & Hf2 & Hi2 & Hpf2 & Hr2 & Hpi2 & _);
    try assumption.
  { congruence. }
  { lia. }
  { rewrite Hsz1, Hi1. unfold INT_MAX, int_bits. cbn. lia. }
  { rewrite Hf1, Hi1. intros k Hk. apply Hdec; [exact Hk | in_list]. }
  rewrite Hf1, Hi1 in *.
  change (files_at [f0; f1; f2] (0 + 1)) with f1 in Ht2.
  specialize (Hpi2 Hreq).
  assert (Hsz2 : size s2 = 3) by (now rewrite (size_files s2 _ Hf2)).
  destruct (tick_advance p w s2 (fun k => c k f2))
    as (s3 & Ht3 & Hf3 & Hi3 & Hpf3 & Hr3 & Hpi3 & _);
    try assumption.
  { congruence. }
  { lia. }
  { rewrite Hsz2, Hi2. unfold INT_MAX, int_bits. cbn. lia. }
  { rewrite Hf2, Hi2. intros k Hk. apply Hdec; [exact Hk | in_list]. }
  rewrite Hf2, Hi2 in *.
  change (files_at [f0; f1; f2] (0 + 1 + 1)) with f2 in Ht3.
  specialize (Hpi3 Hreq).
  assert (Hsz3 : size s3 = 3) by (now rewrite (size_files s3 _ Hf3)).
  destruct (tick_wrap p w s3 (fun k => c k f0))
    as (s4 & Ht4 & Hf4 & Hi4 & _); try assumption.
  { congruence. }
  { lia. }
  { rewrite Hsz3. unfold INT_MAX, int_bits. cbn. lia. }
  { rewrite Hf3. intros k Hk. apply Hdec; [exact Hk | in_list]. }
  rewrite Hf3 in Ht4. change (files_at [f0; f1; f2] 0) with f0 in Ht4.
  exists s1, s2, s3, s4.
  cbn [run]. rewrite Ht1. cbn [fst]. rewrite Ht2. cbn [fst].
  rewrite Ht3. cbn [fst]. rewrite Ht4.
  repeat split; try assumption; lia.
Qed.

(** C8.  With loop mode and auto-advance on and no retreat requested, in a
    world that does not change, the indices that the ticks leave repeat
    with the length of the sequence as period; in the steady state without
    auto-retreat the index after [t] ticks is the old one plus [t], modulo
    that length.  In scenario B, the tick after index 2 signals the end of
    the sequence, puts the index at 0 and reads and writes out [f0]. *)
Theorem loop_indices_periodic :
  (forall p w s,
     prop_loop p = true ->
     prop_auto_next_cloud p = true ->
     prev_cloud_flag s = false ->
     let F := if reload_sequence_flag s then found_files p w
              else files s in
     F <> [] ->
     Z.of_nat (List.length F) <= INT_MAX ->
     (reload_sequence_flag s = false -> previous_index s <> -1 ->
      0 <= index s < size s) ->
     forall t, (1 <= t)%nat ->
       index (ticks p w (t + List.length F) s) = index (ticks p w t s))
  /\ (forall p w s t,
        prop_loop p = true ->
        prop_auto_next_cloud p = true ->
        prop_auto_prev_cloud p = false ->
        reload_sequence_flag s = false ->
        prev_cloud_flag s = false ->
        previous_index s <> -1 ->
        size s <= INT_MAX ->
        0 <= index s < size s ->
        index (ticks p w t s) = (index s + Z.of_nat t) mod size s)
  /\ (forall p w s0 f0 f1 f2
             (c : forall k, string -> PointCloud PointT k),
        prop_loop p = true ->
        prop_auto_next_cloud p = true ->
        prop_auto_prev_cloud p = false ->
        prop_auto_publish_cloud p = true ->
        requested_kinds p <> [] ->
        found_files p w = [f0; f1; f2] ->
        (forall k f, prop_return p k = true -> In f [f0; f1; f2] ->
           decodes w k f (c k f)) ->
        exists s1 s2 s3 s4,
          run p [w; w; w; w] (onInit s0)
          = [(s1, loaded_writes p f0 (fun k => c k f0));
             (s2, loaded_writes p f1 (fun k => c k f1));
             (s3, loaded_writes p f2 (fun k => c k f2));
             (s4, out_end_of_sequence_trigger_write Unit
                  :: loaded_writes p f0 (fun k => c k f0))]
          /\ index s3 = 2 /\ index s4 = 0).
Proof.
  split; [|split].
  - exact loop_indices_periodic_aux.
  - intros p w s t Hl Hn Hp Hr Hf Hpi Hsz Hi.
    rewrite ticks_steady_loop by assumption.
    rewrite Hp. f_equal. lia.
  - exact scenario_B.
Qed.

End Playback.

(** ** Requests and their flags *)

Section Requests.

Context {PointT : Kind -> Type}.

Implicit Types (p : Props) (w : World PointT) (s : PCDSequence PointT).

Lemma end_of_sequence_only (t : list (Event PointT)) :
  forallb is_end_of_sequence t = true ->
  existsb is_cloud_write t = false /\ existsb is_load t = false.
Proof.
  induction t as [|e t IH]; [now split|].
  cbn [forallb existsb]. intros H. apply andb_prop in H as [He Ht].
  destruct (IH Ht) as [-> ->]. destruct e; try discriminate He.
  now split.
Qed.

(** C5, as the handler has it.  Every tick leaves the reload flag clear.
    The advance and retreat flags are cleared by the ticks that take the
    navigation branch (no reload pending, a cloud loaded before) and are
    left as they were by the reload and start branches.  The publish flag
    is cleared by the ticks that reach the load phase and is left as it
    was by the ticks that return before it. *)
Theorem request_flags_cleared_by_branch p w s :
  let s' := fst (tick p w s) in
  reload_sequence_flag s' = false
  /\ (reload_sequence_flag s = false -> previous_index s <> -1 ->
      next_cloud_flag s' = false /\ prev_cloud_flag s' = false)
  /\ (reload_sequence_flag s = true \/ previous_index s = -1 ->
      next_cloud_flag s' = next_cloud_flag s
      /\ prev_cloud_flag s' = prev_cloud_flag s)
  /\ (fst (fst (pre_load p w s)) = Normal tt ->
      publish_cloud_flag s' = false)
  /\ (fst (fst (pre_load p w s)) = Return ->
      publish_cloud_flag s' = publish_cloud_flag s).
Proof.
  cbv zeta.
  destruct (tick_frame p w s) as (_ & _ & H3 & H4 & H5 & _).
  pose proof (navigate_frame p w s) as Hn.
  split; [exact H5|].
  rewrite tick_eq, onLoadCloud_pre_load. unfold bind.
  rewrite pre_load_eq.
  rewrite tick_eq, onLoadCloud_pre_load in H3, H4. unfold bind in H3, H4.
  rewrite pre_load_eq in H3, H4.
  destruct (navigate p w s) as [[o s1] t1]. cbn [fst snd] in *.
  destruct Hn as (Ho & _ & _ & _ & Hpub & _ & _ & Hnav & Hstart).
  split; [|split].
  - intros Hr Hpi. destruct (Hnav Hr Hpi). split; congruence.
  - intros Hc. destruct (Hstart Hc) as (_ & _ & _ & Hnf & Hpf).
    split; congruence.
  - destruct o as [[]| |]; cbn [fst snd]; [|split; congruence|tauto].
    destruct (is_empty (files s1)); cbn [fst snd];
      [split; congruence|].
    destruct (negb _ && negb _); cbn [fst snd]; [split; congruence|].
    pose proof (load_clouds_frame p w (set_publish_cloud_flag false s1))
      as Hl.
    destruct (load_clouds p w _) as [[o s2] t2]. cbn [fst snd].
    destruct Hl as (_ & _ & _ & _ & _ & _ & Hl & _).
    split; [intros _|discriminate].
    rewrite Hl. destruct_state s1. reflexivity.
Qed.


(** C9.  Requesting an advance any number of times, at least once, leaves
    the component in the state that one request leaves it in, and so the
    next tick is the same; likewise for retreat, reload and publish, and
    for the triggered handlers, which differ only in reading their
    stream. *)
Theorem requests_idempotent (n : nat) s :
  Nat.iter (S n) onLoadNextCloud s = onLoadNextCloud s
  /\ Nat.iter (S n) onLoadPrevCloud s = onLoadPrevCloud s
  /\ Nat.iter (S n) onSequenceReload s = onSequenceReload s
  /\ Nat.iter (S n) onPublishCloud s = onPublishCloud s
  /\ (forall port port',
        snd (onTriggeredLoadNextCloud port'
               (snd (onTriggeredLoadNextCloud port s)))
        = onLoadNextCloud s
        /\ snd (onTriggeredLoadPrevCloud port'
                  (snd (onTriggeredLoadPrevCloud port s)))
           = onLoadPrevCloud s
        /\ snd (onTriggeredPublishCloud port'
                  (snd (onTriggeredPublishCloud port s)))
           = onPublishCloud s)
  /\ (forall p w,
        tick p w (Nat.iter (S n) onLoadNextCloud s)
        = tick p w (onLoadNextCloud s)
        /\ tick p w (Nat.iter (S n) onLoadPrevCloud s)
           = tick p w (onLoadPrevCloud s)
        /\ tick p w (Nat.iter (S n) onSequenceReload s)
           = tick p w (onSequenceReload s)
        /\ tick p w (Nat.iter (S n) onPublishCloud s)
           = tick p w (onPublishCloud s)).
Proof.
  assert (H : Nat.iter (S n) onLoadNextCloud s = onLoadNextCloud s
              /\ Nat.iter (S n) onLoadPrevCloud s = onLoadPrevCloud s
              /\ Nat.iter (S n) onSequenceReload s = onSequenceReload s
              /\ Nat.iter (S n) onPublishCloud s = onPublishCloud s).
  { induction n as [|n (IH1 & IH2 & IH3 & IH4)].
    - repeat split.
    - repeat split.
      + change (onLoadNextCloud (Nat.iter (S n) onLoadNextCloud s)
                = onLoadNextCloud s).
        rewrite IH1. now destruct_state s.
      + change (onLoadPrevCloud (Nat.iter (S n) onLoadPrevCloud s)
                = onLoadPrevCloud s).
        rewrite IH2. now destruct_state s.
      + change (onSequenceReload (Nat.iter (S n) onSequenceReload s)
                = onSequenceReload s).
        rewrite IH3. now destruct_state s.
      + change (onPublishCloud (Nat.iter (S n) onPublishCloud s)
                = onPublishCloud s).
        rewrite IH4. now destruct_state s. }
  destruct H as (H1 & H2 & H3 & H4).
  repeat split; try assumption; try congruence.
  all: now destruct_state s.
Qed.

(** C10.  [onInit] sets the reload flag, so the first tick searches the
    files without a reload request; and a tick that starts with
    [previous_index = -1] leaves the index at 0, whether or not an advance
    or a retreat was requested. *)
Theorem first_tick_discovers_and_cursor_rests p w s :
  (reload_sequence_flag (onInit s) = true
   /\ previous_index (onInit s) = -1
   /\ index (onInit s) = 0)
  /\ files (fst (tick p w (onInit s))) = found_files p w
  /\ (previous_index s = -1 ->
      index (fst (tick p w s)) = 0
      /\ index (fst (tick p w (onLoadNextCloud s))) = 0
      /\ index (fst (tick p w (onLoadPrevCloud s))) = 0).
Proof.
  assert (H0 : forall x, previous_index x = -1 ->
                         index (fst (tick p w x)) = 0).
  { intros x Hx.
    destruct (tick_frame p w x) as (_ & H2 & _).
    pose proof (navigate_frame p w x) as Hn.
    destruct (navigate p w x) as [[o s1] t1]. cbn [fst snd] in *.
    destruct Hn as (_ & _ & _ & _ & _ & _ & _ & _ & Hstart).
    destruct (Hstart (or_intror Hx)) as (_ & _ & Hi & _). congruence. }
  split; [repeat split|]. split.
  - destruct (tick_frame p w (onInit s)) as (H1 & _).
    rewrite navigate_reload in H1 by reflexivity. exact H1.
  - intros Hpi. repeat split; apply H0; destruct_state s; exact Hpi.
Qed.

End Requests.

(** Loop mode on the three files of scenario B. *)
Lemma loop_indices_periodic_witness :
  let p := Scenario.props_with true true true false true false false in
  let w := Scenario.world_of ["f0"; "f1"; "f2"]%string in
  let s := onInit Scenario.constructed in
  index (ticks p w (1 + 3) s) = index (ticks p w 1 s)
  /\ index (ticks p w 2 (ticks p w 1 s)) = (0 + 2) mod 3
  /\ exists s1 s2 s3 s4,
       run p [w; w; w; w] s
       = [(s1, loaded_writes p "f0" (fun k => Scenario.cloud_of k "f0"));
          (s2, loaded_writes p "f1" (fun k => Scenario.cloud_of k "f1"));
          (s3, loaded_writes p "f2" (fun k => Scenario.cloud_of k "f2"));
          (s4, out_end_of_sequence_trigger_write Unit
               :: loaded_writes p "f0" (fun k => Scenario.cloud_of k "f0"))]
       /\ index s3 = 2 /\ index s4 = 0.
Proof.
  intros p w s.
  destruct (@loop_indices_periodic Scenario.Pt) as (H1 & H2 & H3).
  split; [|split].
  - apply (H1 p w s); try reflexivity.
    + vm_compute. discriminate.
    + vm_compute. discriminate.
    + intros Hr. vm_compute in Hr. discriminate Hr.
  - apply (H2 p w (ticks p w 1 s) 2%nat); try reflexivity.
    + vm_compute. discriminate.
    + vm_compute. discriminate.
    + vm_compute. split; [discriminate | reflexivity].
  - apply (H3 p w Scenario.constructed "f0" "f1" "f2" Scenario.cloud_of)%string;
      try reflexivity.
    + vm_compute. discriminate.
    + intros k f _ _. exists 0. split; [reflexivity | discriminate].
Defined.

(** The flags after a tick of the navigation branch that reaches the load
    phase. *)
Lemma request_flags_cleared_by_branch_witness :
  let p := Scenario.props_with false true true false true false false in
  let w := Scenario.world_of ["f0"; "f1"; "f2"]%string in
  let s := onLoadNextCloud
             (onPublishCloud (ticks p w 1 (onInit Scenario.constructed))) in
  next_cloud_flag (fst (tick p w s)) = false
  /\ publish_cloud_flag (fst (tick p w s)) = false.
Proof.
  intros p w s.
  destruct (request_flags_cleared_by_branch p w s) as (_ & H2 & _ & H4 & _).
  split.
  - apply H2; [reflexivity | vm_compute; discriminate].
  - apply H4. reflexivity.
Defined.

(** C5 as stated fails: an advance requested before the first tick is still
    pending after it, and a publish request made at the last file of a
    sequence without loop is still pending after the tick that ends there. *)
Lemma requests_survive_some_ticks :
  let p := Scenario.props_with false true true false true false false in
  let w := Scenario.world_of ["f0"%string] in
  let s := onLoadNextCloud (onInit Scenario.constructed) in
  let s' := onPublishCloud (fst (tick p w s)) in
  next_cloud_flag s = true
  /\ ~ (next_cloud_flag (fst (tick p w s)) = false)
  /\ publish_cloud_flag s' = true
  /\ snd (tick p w s') = [out_end_of_sequence_trigger_write Unit]
  /\ ~ (publish_cloud_flag (fst (tick p w s')) = false).
Proof.
  intros p w s s'. repeat split; vm_compute; discriminate.
Qed.



(** The first tick of the initialised component, an advance requested. *)
Lemma first_tick_discovers_and_cursor_rests_witness :
  let p := Scenario.props_with false false true false true false false in
  let w := Scenario.world_of ["f0"; "f1"; "f2"]%string in
  let s := fst (tick p w (onInit Scenario.constructed)) in
  files s = ["f0"; "f1"; "f2"]%string
  /\ index (fst (tick p w (onLoadNextCloud s))) = 0.
Proof.
  intros p w s. split.
  - exact (proj1 (proj2 (first_tick_discovers_and_cursor_rests
                           p w Scenario.constructed))).
  - destruct (first_tick_discovers_and_cursor_rests p w s) as (_ & _ & H).
    destruct (H eq_refl) as (_ & H' & _). exact H'.
Defined.

(** * Further properties of the handlers *)

(** ** File discovery *)

Section Discovery.

Context {PointT : Kind -> Type}.

Implicit Types (p : Props) (w : World PointT) (s : PCDSequence PointT).

Lemma sort_insert_permutation x l : Permutation (x :: l) (sort_insert x l).
Proof.
  induction l as [|y l IH]; cbn [sort_insert]; [apply Permutation_refl|].
  destruct (String.leb x y); [apply Permutation_refl|].
  eapply Permutation_trans; [apply perm_swap|].
  now apply perm_skip.
Qed.

Lemma std_sort_permutation l : Permutation l (std_sort l).
Proof.
  induction l as [|x l IH]; cbn; [constructor|].
  eapply Permutation_trans; [apply perm_skip, IH|].
  apply sort_insert_permutation.
Qed.

Lemma sort_insert_sorted x l :
  Sorted (fun a b => String.leb a b = true) l ->
  Sorted (fun a b => String.leb a b = true) (sort_insert x l).
Proof.
  induction 1 as [|y l Hs IH Hhd]; cbn [sort_insert].
  - repeat constructor.
  - destruct (String.leb x y) eqn:E.
    + constructor; [now constructor | now constructor].
    + constructor; [exact IH|].
      assert (Hyx : String.leb y x = true).
      { destruct (String.leb_total x y) as [H | H]; congruence. }
      destruct Hhd as [|z l Hyz]; cbn [sort_insert].
      * now constructor.
      * destruct (String.leb x z); now constructor.
Qed.

Lemma std_sort_sorted l :
  Sorted (fun a b => String.leb a b = true) (std_sort l).
Proof.
  induction l as [|x l IH]; cbn; [constructor|].
  now apply sort_insert_sorted.
Qed.

(** X1.  [findFiles] replaces the file list by what the search returns:
    the same paths, in ascending byte-wise order when the sort mode is on and
    in the order of the search otherwise; it changes no other member, and
    its result tells whether a path was found. *)
Theorem findFiles_orders_the_search p w s :
  let l := searchFiles w (prop_directory p) (prop_pattern p) in
  exists s',
    findFiles p w s = (Normal (negb (is_empty l)), s', [])
    /\ Permutation l (files s')
    /\ (prop_sort p = true ->
        Sorted (fun a b => String.leb a b = true) (files s'))
    /\ (prop_sort p = false -> files s' = l)
    /\ s' = set_files (files s') s.
Proof.
  intros l. rewrite findFiles_eq. unfold found_files. fold l.
  exists (set_files (if prop_sort p then std_sort l else l) s).
  assert (Hperm : Permutation l (if prop_sort p then std_sort l else l)).
  { destruct (prop_sort p);
      [apply std_sort_permutation | apply Permutation_refl]. }
  split.
  - f_equal. f_equal. f_equal. f_equal.
    destruct l; destruct (if prop_sort p then _ else _) eqn:E;
      try reflexivity.
    + apply Permutation_nil in Hperm. discriminate.
    + apply Permutation_sym, Permutation_nil in Hperm. discriminate.
  - destruct_state s. cbn [files set_files].
    repeat split; try assumption.
    + intros ->. apply std_sort_sorted.
    + now intros ->.
Qed.

End Discovery.

(** ** The events of a tick *)

Section Events.

Context {PointT : Kind -> Type}.

Implicit Types (p : Props) (w : World PointT) (s : PCDSequence PointT).

(** The events of a tick: those of the first part of the handler, then
    those of the [try] block, when the tick gets there. *)
Lemma tick_events p w s :
  exists s1 t1 t2,
    navigate p w s = (fst (fst (navigate p w s)), s1, t1)
    /\ snd (tick p w s) = t1 ++ t2
    /\ (t2 = []
        /\ fst (tick p w s) = s1
        \/ files s1 <> []
           /\ t2 = snd (load_clouds p w (set_publish_cloud_flag false s1))
           /\ fst (tick p w s)
              = snd (fst (load_clouds p w
                            (set_publish_cloud_flag false s1)))).
Proof.
  rewrite tick_eq, onLoadCloud_pre_load. unfold bind.
  rewrite pre_load_eq.
  destruct (navigate p w s) as [[o s1] t1]. cbn [fst snd].
  exists s1, t1.
  destruct o as [[]| |]; cbn [fst snd];
    try (exists []; rewrite app_nil_r; split; [reflexivity|];
         split; [reflexivity|]; left; now split).
  destruct (files s1) as [|f fs] eqn:Hf; cbn [is_empty].
  { exists []. rewrite app_nil_r. cbn [fst snd]. split; [reflexivity|].
    split; [reflexivity|]. left; now split. }
  destruct (negb _ && negb _).
  { exists []. rewrite app_nil_r. cbn [fst snd]. split; [reflexivity|].
    split; [reflexivity|]. left; now split. }
  destruct (load_clouds p w _) as [[o s2] t2] eqn:Hl. cbn [fst snd].
  exists t2. split; [reflexivity|]. split; [reflexivity|].
  right. split; [discriminate|]. now split.
Qed.

Lemma end_of_sequence_not_cloud (t : list (Event PointT)) e :
  forallb is_end_of_sequence t = true -> In e t ->
  is_end_of_sequence e = true.
Proof. intros H. now apply forallb_forall. Qed.

Lemma out_cloud_write_inj k (c c' : PointCloud PointT k) :
  @out_cloud_write PointT k c = out_cloud_write k c' -> c = c'.
Proof.
  intros H.
  pose (proj := fun (e : Event PointT) =>
    match e with
    | out_cloud_write k' c0 =>
        match k' as k0, k as k1
              return PointCloud PointT k0 -> PointCloud PointT k1 ->
                     PointCloud PointT k1 with
        | XYZ, XYZ => fun x _ => x
        | XYZRGB, XYZRGB => fun x _ => x
        | XYZSIFT, XYZSIFT => fun x _ => x
        | _, _ => fun _ d => d
        end c0 c
    | _ => c
    end).
  apply (f_equal proj) in H. unfold proj in H. now destruct k.
Qed.

(** The [try] block: only requested kinds, the file at the index, and
    what is written is what is stored. *)
Lemma load_clouds_events p w s :
  match load_clouds p w s with
  | (o, s', t) =>
      (forall k c, In (out_cloud_write k c) t ->
         prop_return p k = true /\ c = cloud k s')
      /\ (forall k f, In (loadPCDFile_call k f) t ->
            prop_return p k = true
            /\ f = files_at (files s) (index s))
      /\ (forall k, prop_return p k = false -> cloud k s' = cloud k s)
      /\ (List.length (filter is_load t) <= 3)%nat
  end.
Proof.
  destruct (Z.eq_dec (index s) (previous_index s)) as [E | E].
  - rewrite load_clouds_cached by exact E.
    destruct_props p. destruct_state s.
    unfold stored_writes, requested_kinds, kinds.
    cbn [filter prop_return prop_return_xyz prop_return_xyzrgb
         prop_return_xyzsift].
    destruct rx, rr, rs; cbn [map In filter is_load List.length].
    all: (split; [|split; [|split]]); [| | |lia].
    all: try (intros k c H;
              repeat destruct H as [H | H]; try contradiction;
              destruct k; try discriminate H;
              (split; [reflexivity
                      | symmetry; exact (out_cloud_write_inj _ _ _ H)])).
    all: try (intros k f H; repeat destruct H as [H | H];
              try contradiction; discriminate H).
    all: reflexivity.
  - rewrite load_clouds_miss by exact E.
    destruct_state s. load_cases.
    all: cbn [In filter is_load List.length].
    all: (split; [|split; [|split]]); [| | |lia].
    all: try (intros k c' H;
              repeat destruct H as [H | H]; try contradiction;
              destruct k; try discriminate H;
              (split; [assumption
                      | symmetry; exact (out_cloud_write_inj _ _ _ H)])).
    all: try (intros k f H; repeat destruct H as [H | H];
              try contradiction;
              destruct k; try discriminate H;
              (split; [assumption | now injection H])).
    all: intros k Hk; destruct k; try reflexivity; congruence.
Qed.

Lemma navigate_signals p w s :
  (List.length (snd (navigate p w s)) <= 2)%nat.
Proof.
  destruct (reload_sequence_flag s) eqn:Er.
  { rewrite navigate_reload by exact Er. cbn. lia. }
  destruct (Z.eq_dec (previous_index s) (-1)) as [Ep | Ep].
  { rewrite navigate_start by assumption. cbn. lia. }
  destruct_props p. destruct_state s. cbn in Er, Ep. subst rf.
  apply Z.eqb_neq in Ep.
  destruct an; destruct nf; destruct av; destruct pf; destruct lp.
  all: unfold_handler; unfold_props; rewrite ?Ep.
  all: repeat match goal with
       | |- context [if ?c then _ else _] => destruct c eqn:?
       end.
  all: cbn [snd List.length]; lia.
Qed.

(** X2.  Whatever the loader does, throwing included, [onLoadCloud] ends
    normally or by one of its [return]s: no exception leaves it. *)
Theorem tick_never_throws p w s :
  fst (fst (onLoadCloud p w s)) = Normal tt
  \/ fst (fst (onLoadCloud p w s)) = Return.
Proof.
  pose proof (onLoadCloud_catches p w s) as H.
  destruct (fst (fst (onLoadCloud p w s))) as [[]| |]; tauto.
Qed.

(** X3.  A tick never reads or writes a cloud of a kind that is not
    returned, and leaves the stored cloud of that kind as it was. *)
Theorem tick_leaves_other_kinds_alone p w s k :
  prop_return p k = false ->
  (forall c, ~ In (out_cloud_write k c) (snd (tick p w s)))
  /\ (forall f, ~ In (loadPCDFile_call k f) (snd (tick p w s)))
  /\ cloud k (fst (tick p w s)) = cloud k s.
Proof.
  intros Hk.
  destruct (tick_events p w s) as (s1 & t1 & t2 & Hn & Ht & Hc).
  pose proof (navigate_frame p w s) as Hf. rewrite Hn in Hf.
  destruct Hf as (_ & Heos & _ & _ & _ & Hcl & _).
  rewrite Ht.
  assert (Ht1 : forall e, In e t1 -> is_end_of_sequence e = true)
    by (intros e; now apply end_of_sequence_not_cloud).
  destruct Hc as [[-> ->] | (_ & -> & ->)].
  - rewrite app_nil_r. repeat split.
    + intros c Hin. apply Ht1 in Hin. discriminate Hin.
    + intros f Hin. apply Ht1 in Hin. discriminate Hin.
    + apply Hcl.
  - pose proof (load_clouds_events p w (set_publish_cloud_flag false s1))
      as Hl.
    destruct (load_clouds p w _) as [[o s2] t2]. cbn [fst snd].
    destruct Hl as (Hw & Hr & Hu & _).
    repeat split.
    + intros c Hin. apply in_app_or in Hin as [Hin | Hin].
      * apply Ht1 in Hin. discriminate Hin.
      * apply Hw in Hin. destruct Hin. congruence.
    + intros f Hin. apply in_app_or in Hin as [Hin | Hin].
      * apply Ht1 in Hin. discriminate Hin.
      * apply Hr in Hin. destruct Hin. congruence.
    + rewrite (Hu k Hk), <- Hcl. now destruct k, s1.
Qed.

(** X4.  Every cloud that a tick writes out is of a returned kind and is the
    cloud that the component stores for that kind when the tick ends. *)
Theorem tick_writes_what_it_stores p w s k c :
  In (out_cloud_write k c) (snd (tick p w s)) ->
  prop_return p k = true /\ c = cloud k (fst (tick p w s)).
Proof.
  destruct (tick_events p w s) as (s1 & t1 & t2 & Hn & Ht & Hc).
  pose proof (navigate_frame p w s) as Hf. rewrite Hn in Hf.
  destruct Hf as (_ & Heos & _).
  rewrite Ht. intros Hin. apply in_app_or in Hin as [Hin | Hin].
  { apply (end_of_sequence_not_cloud _ _ Heos) in Hin. discriminate Hin. }
  destruct Hc as [[-> _] | (_ & -> & ->)]; [contradiction|].
  pose proof (load_clouds_events p w (set_publish_cloud_flag false s1))
    as Hl.
  destruct (load_clouds p w _) as [[o s2] t2]. cbn [fst snd] in *.
  destruct Hl as (Hw & _). now apply Hw.
Qed.

(** X5.  Every read of a tick is of the file at the index the tick ends
    with, and a tick reads at most three times. *)
Theorem tick_reads_the_file_at_index p w s :
  (forall k f, In (loadPCDFile_call k f) (snd (tick p w s)) ->
     f = files_at (files (fst (tick p w s))) (index (fst (tick p w s))))
  /\ (List.length (filter is_load (snd (tick p w s))) <= 3)%nat.
Proof.
  destruct (tick_events p w s) as (s1 & t1 & t2 & Hn & Ht & Hc).
  pose proof (navigate_frame p w s) as Hf. rewrite Hn in Hf.
  destruct Hf as (_ & Heos & _).
  assert (Hnl : filter is_load t1 = []).
  { clear -Heos. induction t1 as [|e t IH]; [reflexivity|].
    cbn [forallb] in Heos. apply andb_prop in Heos as [He Ht].
    cbn [filter]. destruct e; try discriminate He. now apply IH. }
  rewrite Ht, filter_app, Hnl. cbn [app].
  destruct Hc as [[-> ->] | (_ & -> & ->)].
  - split; [|cbn; lia]. intros k f Hin. rewrite app_nil_r in Hin.
    apply (end_of_sequence_not_cloud _ _ Heos) in Hin. discriminate Hin.
  - pose proof (load_clouds_events p w (set_publish_cloud_flag false s1))
      as Hl.
    pose proof (load_clouds_frame p w (set_publish_cloud_flag false s1))
      as Hfr.
    destruct (load_clouds p w _) as [[o s2] t2]. cbn [fst snd] in *.
    destruct Hl as (_ & Hr & _ & Hlen).
    destruct Hfr as (_ & -> & -> & _).
    split; [|exact Hlen]. intros k f Hin.
    apply in_app_or in Hin as [Hin | Hin].
    + apply (end_of_sequence_not_cloud _ _ Heos) in Hin. discriminate Hin.
    + now apply Hr in Hin.
Qed.

(** X6.  In the events of a tick the end-of-sequence signals come first, at
    most two of them, and nothing after them is such a signal. *)
Theorem tick_signals_first p w s :
  exists t1 t2,
    snd (tick p w s) = t1 ++ t2
    /\ forallb is_end_of_sequence t1 = true
    /\ (List.length t1 <= 2)%nat
    /\ existsb is_end_of_sequence t2 = false.
Proof.
  destruct (tick_events p w s) as (s1 & t1 & t2 & Hn & Ht & Hc).
  pose proof (navigate_frame p w s) as Hf. rewrite Hn in Hf.
  destruct Hf as (_ & Heos & _).
  pose proof (navigate_signals p w s) as Hlen. rewrite Hn in Hlen.
  exists t1, t2. repeat split; try assumption.
  destruct Hc as [[-> _] | (_ & -> & _)]; [reflexivity|].
  pose proof (load_clouds_no_end_of_sequence p w
                (set_publish_cloud_flag false s1)) as H.
  unfold end_of_sequence_count in H.
  destruct (load_clouds p w _) as [[o s2] t2']. cbn [snd] in *.
  clear -H. induction t2' as [|e t IH]; [reflexivity|].
  cbn [filter existsb] in *. destruct (is_end_of_sequence e);
    [discriminate H | now apply IH].
Qed.

End Events.

(** ** What the reachable states have in common *)

Section Invariants.

Context {PointT : Kind -> Type}.

Implicit Types (p : Props) (w : World PointT) (s : PCDSequence PointT).

(** X7.  In every state that the component reaches from [onInit] by ticks
    and requests, the index is within the file list whenever that list is
    not empty. *)
Theorem index_stays_in_range p s :
  reachable p s -> files s <> [] -> 0 <= index s < size s.
Proof. intros H. apply (reachable_index_in_range p s H). Qed.

(** X8.  In every reachable state [previous_index] is at least -1, and for
    as long as it is -1 the three stored clouds are the empty ones that
    [onInit] allocated. *)
Theorem nothing_stored_before_first_load p s :
  reachable p s ->
  -1 <= previous_index s
  /\ (previous_index s = -1 -> forall k, cloud k s = new_PointCloud k).
Proof.
  induction 1 as [s Hs | w s Hreach [IH1 IH2] Hw | s _ IH | s _ IH
                 | s _ IH | s _ IH].
  - destruct_state s. cbn. split; [lia|]. intros _ k. now destruct k.
  - pose proof (reachable_index_in_range p _
                  (reach_tick p w s Hreach Hw)) as [_ Hrange].
    destruct (tick_events p w s) as (s1 & t1 & t2 & Hn & _ & Hc).
    pose proof (navigate_frame p w s) as Hf. rewrite Hn in Hf.
    destruct Hf as (_ & _ & _ & Hpi & _ & Hcl & _).
    destruct Hc as [[_ ->] | (Hne & _ & Hs')].
    + rewrite Hpi. split; [exact IH1|]. intros H k.
      rewrite Hcl. now apply IH2.
    + rewrite Hs' in *.
      pose proof (load_clouds_frame p w (set_publish_cloud_flag false s1))
        as Hfr.
      pose proof (load_clouds_nothing_loaded p w
                    (set_publish_cloud_flag false s1)) as Hnl.
      destruct (load_clouds p w _) as [[o s2] t2']. cbn [fst snd] in *.
      destruct Hfr as (_ & Hfs & Hix & _ & _ & _ & _ & Hp).
      assert (Hy : files (set_publish_cloud_flag false s1) = files s1
                   /\ previous_index (set_publish_cloud_flag false s1)
                      = previous_index s
                   /\ forall k, cloud k (set_publish_cloud_flag false s1)
                                = cloud k s).
      { clear -Hpi Hcl. destruct_state s1. st.
        split; [reflexivity|]. split; [exact Hpi|].
        intros k. rewrite <- Hcl. now destruct k. }
      destruct Hy as (Hy1 & Hy2 & Hy3).
      assert (Hi : 0 <= index s2).
      { apply Hrange. rewrite Hfs, Hy1. exact Hne. }
      split; [destruct Hp as [Hp | Hp]; rewrite Hp; lia|].
      intros Hm1 k.
      assert (Hsame : s2 = set_publish_cloud_flag false s1).
      { apply Hnl; rewrite <- Hix; [|lia].
        destruct Hp as [Hp | Hp]; lia. }
      rewrite Hsame, Hy3. apply IH2. rewrite <- Hy2, <- Hsame. exact Hm1.
  - destruct IH as [IH1 IH2]. destruct_state s. cbn in *.
    split; [assumption|]. intros H k. specialize (IH2 H k). now destruct k.
  - destruct IH as [IH1 IH2]. destruct_state s. cbn in *.
    split; [assumption|]. intros H k. specialize (IH2 H k). now destruct k.
  - destruct IH as [IH1 IH2]. destruct_state s. cbn in *.
    split; [assumption|]. intros H k. specialize (IH2 H k). now destruct k.
  - destruct IH as [IH1 IH2]. destruct_state s. cbn in *.
    split; [assumption|]. intros H k. specialize (IH2 H k). now destruct k.
Qed.

(** X9.  A tick that reloads, or that finds nothing loaded so far, on an
    empty file list writes and reads nothing, gives no signal, sets the
    index to 0 and leaves [previous_index] and the stored clouds alone. *)
Theorem empty_sequence_is_quiet p w s :
  reload_sequence_flag s = true \/ previous_index s = -1 ->
  (if reload_sequence_flag s then found_files p w else files s) = [] ->
  snd (tick p w s) = []
  /\ files (fst (tick p w s)) = []
  /\ index (fst (tick p w s)) = 0
  /\ previous_index (fst (tick p w s)) = previous_index s
  /\ forall k, cloud k (fst (tick p w s)) = cloud k s.
Proof.
  intros Hc He.
  destruct (tick_events p w s) as (s1 & t1 & t2 & Hn & Ht & Hcase).
  pose proof (navigate_frame p w s) as Hf. rewrite Hn in Hf.
  destruct Hf as (_ & _ & _ & Hpi & _ & Hcl & Hfiles & _ & Hstart).
  destruct (Hstart Hc) as (_ & -> & Hix & _).
  assert (Hfs : files s1 = []).
  { destruct (reload_sequence_flag s) eqn:Hr.
    - rewrite navigate_reload in Hn by exact Hr. cbn [fst snd] in Hn.
      assert (Hs1 : s1 = set_reload_sequence_flag false
                           (set_index 0 (set_files (found_files p w) s)))
        by congruence.
      rewrite Hs1. destruct_state s. exact He.
    - rewrite Hfiles by reflexivity. exact He. }
  destruct Hcase as [[-> ->] | (Hne & _)]; [|contradiction].
  rewrite Ht. repeat split; assumption.
Qed.

(** X10.  A reload does not reset [previous_index]: when it is 0, the tick
    that reloads a non-empty directory and passes the publish gate writes
    the clouds stored before the reload and reads no file of the new
    list. *)
Theorem reload_keeps_the_cache p w s :
  reload_sequence_flag s = true ->
  previous_index s = 0 ->
  found_files p w <> [] ->
  prop_auto_publish_cloud p = true \/ publish_cloud_flag s = true ->
  tick p w s
  = (set_publish_cloud_flag false
       (set_reload_sequence_flag false
          (set_index 0 (set_files (found_files p w) s))),
     stored_writes p s).
Proof.
  intros Hr Hpi Hne Hgate.
  assert (Hpre : pre_load p w s
    = (Normal tt,
       set_publish_cloud_flag false
         (set_reload_sequence_flag false
            (set_index 0 (set_files (found_files p w) s))), [])).
  { rewrite pre_load_eq, navigate_reload by exact Hr.
    destruct_state s. st.
    destruct (found_files p w); [congruence|]. cbn [is_empty].
    cbn in Hgate. destruct Hgate as [-> | ->];
      [reflexivity | now rewrite andb_false_r]. }
  unfold tick. rewrite (onLoadCloud_reaching _ _ _ _ _ Hpre).
  rewrite load_clouds_cached by (destruct_state s; st; now subst).
  cbn [app]. f_equal. unfold stored_writes. apply map_ext.
  intros k. now destruct k, s.
Qed.

End Invariants.

(** ** Modes and requests *)

Section Modes.

Context {PointT : Kind -> Type}.

Implicit Types (p : Props) (w : World PointT) (s : PCDSequence PointT).






(** In loop mode a tick in the steady state moves the index by the moved
    amount, modulo the length. *)
Lemma tick_steady_wraps p w s :
  prop_loop p = true ->
  reload_sequence_flag s = false ->
  previous_index s <> -1 ->
  size s <= INT_MAX ->
  0 <= index s < size s ->
  let s' := fst (tick p w s) in
  files s' = files s
  /\ reload_sequence_flag s' = false
  /\ next_cloud_flag s' = false
  /\ prev_cloud_flag s' = false
  /\ previous_index s' <> -1
  /\ index s' = moved_index p s mod size s.
Proof.
  intros Hl Hr Hpi Hsz Hi. cbv zeta.
  destruct (tick_frame p w s) as (H1 & H2 & H3 & H4 & H5 & H6).
  rewrite navigate_steady in H1, H2, H3, H4 by assumption.
  cbv zeta in *. rewrite Hl in *.
  assert (Hm : index s - 1 <= moved_index p s <= index s + 1).
  { unfold moved_index.
    destruct (prop_auto_next_cloud p || next_cloud_flag s);
      destruct (prop_auto_prev_cloud p || prev_cloud_flag s); lia. }
  assert (Hst : forall j, files (moved_to j s) = files s
                          /\ index (moved_to j s) = j
                          /\ next_cloud_flag (moved_to j s) = false
                          /\ prev_cloud_flag (moved_to j s) = false)
    by (intros j; now destruct_state s).
  assert (Hidx : index (fst (tick p w s)) = moved_index p s mod size s
                 /\ files (fst (tick p w s)) = files s
                 /\ next_cloud_flag (fst (tick p w s)) = false
                 /\ prev_cloud_flag (fst (tick p w s)) = false).
  { destruct (Z.ltb_spec (moved_index p s) 0);
      [|destruct (Z.leb_spec (size s) (moved_index p s))];
      cbn [fst snd] in *;
      match type of H2 with
      | context [moved_to ?j s] => destruct (Hst j) as (E1 & E2 & E3 & E4)
      end;
      rewrite H1, H2, H3, H4, E1, E2, E3, E4; repeat split.
    - replace (moved_index p s) with (size s - 1 + -1 * size s) by lia.
      rewrite Z.mod_add by lia. rewrite Z.mod_small; lia.
    - replace (moved_index p s) with (size s) by lia.
      rewrite Z.mod_same; lia.
    - rewrite Z.mod_small; lia. }
  destruct Hidx as (Hidx & Hfs & Hnf & Hpf).
  repeat split; try assumption.
  assert (0 <= index (fst (tick p w s))).
  { rewrite Hidx. apply Z.mod_pos_bound. lia. }
  destruct H6; lia.
Qed.

(** X13.  In loop mode, with no request pending, the index after [t] ticks
    in the steady state is the old one plus [t] times the step, modulo the
    length of the sequence; the step is +1 for auto-advance, -1 for
    auto-retreat and 0 for both or none, so retreating wraps from the first
    file to the last. *)
Theorem loop_index_after_ticks p w t s :
  prop_loop p = true ->
  reload_sequence_flag s = false ->
  next_cloud_flag s = false ->
  prev_cloud_flag s = false ->
  previous_index s <> -1 ->
  size s <= INT_MAX ->
  0 <= index s < size s ->
  index (ticks p w t s)
  = (index s
     + Z.of_nat t * ((if prop_auto_next_cloud p then 1 else 0)
                     - (if prop_auto_prev_cloud p then 1 else 0)))
    mod size s.
Proof.
  intros Hl. revert s.
  induction t as [|t IH]; intros s Hr Hnf Hpf Hpi Hsz Hi.
  - cbn [ticks]. rewrite Z.mul_0_l, Z.add_0_r, Z.mod_small; lia.
  - cbn [ticks].
    destruct (tick_steady_wraps p w s) as (H1 & H2 & H3 & H4 & H5 & H6);
      try assumption.
    assert (Hs : size (fst (tick p w s)) = size s)
      by (unfold size; now rewrite H1).
    rewrite IH; try assumption.
    + rewrite Hs, H6, Zplus_mod_idemp_l. f_equal.
      unfold moved_index. rewrite Hnf, Hpf, !orb_false_r. lia.
    + lia.
    + rewrite Hs, H6. apply Z.mod_pos_bound. lia.
Qed.

(** X14.  The tick after [onInit] depends on the earlier state through the
    publish flag only, the one member of the playback state that [onInit]
    does not set. *)
Theorem onInit_forgets_the_past p w s s' :
  publish_cloud_flag s = publish_cloud_flag s' ->
  tick p w (onInit s) = tick p w (onInit s').
Proof.
  intros H. unfold tick, onLoadCloud. unfold bind at 1 3.
  rewrite !navigate_reload by reflexivity.
  destruct_state s. destruct s'. cbn in H. subst. reflexivity.
Qed.

Lemma load_cloud_ext p w w' k s :
  (forall k f, loadPCDFile w k f = loadPCDFile w' k f) ->
  load_cloud p w k s = load_cloud p w' k s.
Proof. intros H. rewrite !load_cloud_eq. cbv zeta. now rewrite H. Qed.

Lemma load_clouds_ext p w w' s :
  (forall k f, loadPCDFile w k f = loadPCDFile w' k f) ->
  load_clouds p w s = load_clouds p w' s.
Proof.
  intros H.
  destruct (Z.eq_dec (index s) (previous_index s)) as [E | E].
  - now rewrite !load_clouds_cached.
  - rewrite !load_clouds_miss by exact E. unfold try_catch, bind.
    rewrite (load_cloud_ext p w w' XYZ s H).
    destruct (load_cloud p w' XYZ s) as [[[[]| |] s1] t1]; try reflexivity.
    rewrite (load_cloud_ext p w w' XYZRGB s1 H).
    destruct (load_cloud p w' XYZRGB s1) as [[[[]| |] s2] t2];
      try reflexivity.
    now rewrite (load_cloud_ext p w w' XYZSIFT s2 H).
Qed.

(** X15.  A tick with no reload pending keeps the file list and does not
    depend on what the directory holds: two worlds with the same loader give
    the same tick. *)
Theorem tick_without_reload_ignores_the_directory p w w' s :
  reload_sequence_flag s = false ->
  (forall k f, loadPCDFile w k f = loadPCDFile w' k f) ->
  tick p w s = tick p w' s /\ files (fst (tick p w s)) = files s.
Proof.
  intros Hr H. split.
  - assert (Hn : navigate p w s = navigate p w' s).
    { unfold navigate. now rewrite !bind_get, Hr. }
    unfold tick, onLoadCloud. unfold bind at 1 3. rewrite Hn.
    destruct (navigate p w' s) as [[[[]| |] s1] t1]; try reflexivity.
    unfold bind.
    destruct (check_publish p s1) as [[[[]| |] s2] t2]; try reflexivity.
    now rewrite (load_clouds_ext p w w' s2 H).
  - destruct (tick_frame p w s) as (H1 & _). rewrite H1.
    pose proof (navigate_frame p w s) as Hf.
    destruct (navigate p w s) as [[o s1] t1]. cbn [fst snd].
    destruct Hf as (_ & _ & _ & _ & _ & _ & Hfiles & _).
    now apply Hfiles.
Qed.

(** With auto-publish off and no request, a tick writes and reads
    nothing. *)
Lemma tick_gate_closed p w s :
  prop_auto_publish_cloud p = false ->
  publish_cloud_flag s = false ->
  existsb is_cloud_write (snd (tick p w s)) = false
  /\ existsb is_load (snd (tick p w s)) = false.
Proof.
  intros Hap Hpf.
  rewrite tick_eq, onLoadCloud_pre_load. unfold bind.
  rewrite pre_load_eq.
  pose proof (navigate_frame p w s) as Hn.
  destruct (navigate p w s) as [[o s1] t1]. cbn [fst snd].
  destruct Hn as (Ho & Heos & _ & _ & Hpub & _).
  assert (Hs : snd (match o with
                    | Normal _ =>
                        if is_empty (files s1) then (Return, s1, t1)
                        else if negb (prop_auto_publish_cloud p)
                                && negb (publish_cloud_flag s1)
                             then (Return, s1, t1)
                             else (Normal tt,
                                   set_publish_cloud_flag false s1, t1)
                    | _ => (o, s1, t1)
                    end) = t1).
  { destruct o as [[]| |]; try reflexivity.
    destruct (is_empty (files s1)); [reflexivity|].
    now rewrite Hap, Hpub, Hpf. }
  destruct o as [[]| |]; [|now apply end_of_sequence_only..].
  destruct (is_empty (files s1)); [now apply end_of_sequence_only|].
  rewrite Hap, Hpub, Hpf. cbn [negb andb snd].
  now apply end_of_sequence_only.
Qed.

(** X16.  With auto-publish off, a tick that reaches the load phase clears
    the publish flag, so the tick after it, with no new request, writes and
    reads nothing. *)
Theorem publish_request_serves_one_tick p w w' s :
  prop_auto_publish_cloud p = false ->
  fst (fst (pre_load p w s)) = Normal tt ->
  publish_cloud_flag (fst (tick p w s)) = false
  /\ existsb is_cloud_write (snd (tick p w' (fst (tick p w s)))) = false
  /\ existsb is_load (snd (tick p w' (fst (tick p w s)))) = false.
Proof.
  intros Hap Hpre.
  assert (Hpf : publish_cloud_flag (fst (tick p w s)) = false).
  { destruct (pre_load p w s) as [[o y] t1] eqn:E. cbn [fst] in Hpre.
    subst o. rewrite tick_eq. cbn [fst].
    rewrite (onLoadCloud_reaching _ _ _ _ _ E).
    pose proof (load_clouds_frame p w y) as Hl.
    destruct (load_clouds p w y) as [[o s2] t2]. cbn [fst snd].
    destruct Hl as (_ & _ & _ & _ & _ & _ & -> & _).
    rewrite pre_load_eq in E.
    destruct (navigate p w s) as [[[[]| |] s1] t0]; try discriminate E.
    destruct (is_empty (files s1)); [discriminate E|].
    destruct (negb _ && negb _); [discriminate E|].
    injection E as <- _. now destruct s1. }
  split; [exact Hpf|]. now apply tick_gate_closed.
Qed.



End Modes.

(** ** Files that cannot be read *)

Section Failures.

Context {PointT : Kind -> Type}.

Implicit Types (p : Props) (w : World PointT) (s : PCDSequence PointT).

(** No requested kind can be read. *)
Lemma load_clouds_all_failed p w s :
  index s <> previous_index s ->
  (forall k, prop_return p k = true ->
     fails w k (files_at (files s) (index s))) ->
  load_clouds p w s
  = (Normal tt, s,
     map (fun k => loadPCDFile_call k (files_at (files s) (index s)))
       (requested_kinds p)).
Proof.
  intros Hmiss Hfail. rewrite load_clouds_miss by exact Hmiss.
  pose proof (Hfail XYZ) as Hx. pose proof (Hfail XYZRGB) as Hr.
  pose proof (Hfail XYZSIFT) as Hs. clear Hfail.
  unfold fails in Hx, Hr, Hs.
  destruct_state s. state_simpl.
  unfold requested_kinds, kinds. cbn [filter].
  load_cases.
  all: repeat match goal with
       | H : true = true -> _ |- _ => specialize (H eq_refl)
       | H : exists _, _ |- _ => destruct H as [? ?]
       end.
  all: try congruence.
  all: reflexivity.
Qed.

(** X18.  When a tick reaches the load phase at an index other than
    [previous_index] and no returned kind can be read from the file there,
    it tries each of them once, writes nothing and leaves the state as the
    first part of the handler left it: the index has moved on, the stored
    clouds and [previous_index] have not. *)
Theorem unreadable_file_is_passed_over p w s s1 t1 :
  pre_load p w s = (Normal tt, s1, t1) ->
  index s1 <> previous_index s1 ->
  (forall k, prop_return p k = true ->
     fails w k (files_at (files s1) (index s1))) ->
  tick p w s
  = (s1, t1 ++ map (fun k => loadPCDFile_call k
                               (files_at (files s1) (index s1)))
                 (requested_kinds p)).
Proof.
  intros Hpre Hmiss Hfail. unfold tick.
  rewrite (onLoadCloud_reaching _ _ _ _ _ Hpre).
  now rewrite load_clouds_all_failed.
Qed.

End Failures.

(** ** The further properties at work

    Each is used on a run of the component of [Scenario]. *)

Lemma tick_leaves_other_kinds_alone_witness :
  let p := Scenario.props_with false true true false true false false in
  let w := Scenario.world_of ["f0"; "f1"; "f2"]%string in
  let s := onInit Scenario.constructed in
  (forall c, ~ In (out_cloud_write XYZRGB c) (snd (tick p w s)))
  /\ (forall f, ~ In (loadPCDFile_call XYZRGB f) (snd (tick p w s)))
  /\ cloud XYZRGB (fst (tick p w s)) = cloud XYZRGB s.
Proof.
  intros p w s. apply (tick_leaves_other_kinds_alone p w s XYZRGB).
  reflexivity.
Defined.

Lemma tick_writes_what_it_stores_witness :
  let p := Scenario.props_with false true true false true false false in
  let w := Scenario.world_of ["f0"; "f1"; "f2"]%string in
  let s := onInit Scenario.constructed in
  prop_return p XYZ = true
  /\ Scenario.cloud_of XYZ "f0" = cloud XYZ (fst (tick p w s)).
Proof.
  intros p w s.
  apply (tick_writes_what_it_stores p w s XYZ (Scenario.cloud_of XYZ "f0")).
  vm_compute. right. left. reflexivity.
Defined.

Lemma index_stays_in_range_witness :
  let p := Scenario.props_with false true true false true false false in
  let w := Scenario.world_of ["f0"; "f1"; "f2"]%string in
  let s := fst (tick p w (onLoadNextCloud (onInit Scenario.constructed))) in
  0 <= index s < size s.
Proof.
  intros p w s. apply (index_stays_in_range p s).
  - apply reach_tick; [|vm_compute; discriminate].
    apply reach_next. now apply reach_init.
  - vm_compute. discriminate.
Defined.

Lemma nothing_stored_before_first_load_witness :
  let p := Scenario.props_with false false true false true false false in
  let w := Scenario.world_of ["f0"; "f1"; "f2"]%string in
  let s := fst (tick p w (onInit Scenario.constructed)) in
  -1 <= previous_index s
  /\ cloud XYZ s = new_PointCloud XYZ
  /\ cloud XYZRGB s = new_PointCloud XYZRGB
  /\ cloud XYZSIFT s = new_PointCloud XYZSIFT.
Proof.
  intros p w s.
  assert (H : reachable p s).
  { apply reach_tick; [|vm_compute; discriminate]. now apply reach_init. }
  destruct (nothing_stored_before_first_load p s H) as [H1 H2].
  split; [exact H1|]. repeat split; apply H2; reflexivity.
Defined.

Lemma empty_sequence_is_quiet_witness :
  let p := Scenario.props_with false true true false true false false in
  let w := Scenario.world_of [] in
  let s := onInit Scenario.constructed in
  snd (tick p w s) = []
  /\ files (fst (tick p w s)) = []
  /\ index (fst (tick p w s)) = 0
  /\ previous_index (fst (tick p w s)) = previous_index s
  /\ forall k, cloud k (fst (tick p w s)) = cloud k s.
Proof.
  intros p w s. apply (empty_sequence_is_quiet p w s).
  - left. reflexivity.
  - reflexivity.
Defined.

Lemma reload_keeps_the_cache_witness :
  let p := Scenario.props_with false true true false true false false in
  let w := Scenario.world_of ["f0"; "f1"; "f2"]%string in
  let w' := Scenario.world_of ["f2"%string] in
  let s := onSequenceReload (fst (tick p w (onInit Scenario.constructed))) in
  snd (tick p w' s) = [out_cloud_write XYZ (Scenario.cloud_of XYZ "f0")].
Proof.
  intros p w w' s.
  rewrite (reload_keeps_the_cache p w' s); try reflexivity.
  - vm_compute. discriminate.
  - left. reflexivity.
Defined.



Lemma loop_index_after_ticks_witness :
  let p := Scenario.props_with true true false true true false false in
  let w := Scenario.world_of ["f0"; "f1"; "f2"]%string in
  let s := fst (tick p w (onInit Scenario.constructed)) in
  index (ticks p w 2 s) = (0 + 2 * (0 - 1)) mod 3.
Proof.
  intros p w s. apply (loop_index_after_ticks p w 2 s); try reflexivity.
  - vm_compute. discriminate.
  - vm_compute. discriminate.
  - vm_compute. split; [discriminate | reflexivity].
Defined.

Lemma onInit_forgets_the_past_witness :
  let p := Scenario.props_with false true true false true false false in
  let w := Scenario.world_of ["f0"; "f1"; "f2"]%string in
  let s := ticks p w 2 (onInit Scenario.constructed) in
  tick p w (onInit s) = tick p w (onInit Scenario.constructed).
Proof.
  intros p w s. apply (onInit_forgets_the_past p w s Scenario.constructed).
  reflexivity.
Defined.

Lemma tick_without_reload_ignores_the_directory_witness :
  let p := Scenario.props_with false true true false true false false in
  let w := Scenario.world_of ["f0"; "f1"; "f2"]%string in
  let w' := Scenario.world_of [] in
  let s := fst (tick p w (onInit Scenario.constructed)) in
  tick p w s = tick p w' s /\ files (fst (tick p w s)) = files s.
Proof.
  intros p w w' s.
  apply (tick_without_reload_ignores_the_directory p w w' s).
  - reflexivity.
  - intros k f. reflexivity.
Defined.

Lemma publish_request_serves_one_tick_witness :
  let p := Scenario.props_with false false true false true false false in
  let w := Scenario.world_of ["f0"; "f1"; "f2"]%string in
  let s := onPublishCloud (onInit Scenario.constructed) in
  publish_cloud_flag (fst (tick p w s)) = false
  /\ existsb is_cloud_write (snd (tick p w (fst (tick p w s)))) = false
  /\ existsb is_load (snd (tick p w (fst (tick p w s)))) = false.
Proof.
  intros p w s. apply (publish_request_serves_one_tick p w w s);
    reflexivity.
Defined.


Lemma unreadable_file_is_passed_over_witness :
  let p := Scenario.props_with false true true false true false false in
  let w := Scenario.world_failing XYZ "f1" ["f0"; "f1"; "f2"]%string in
  let s := fst (tick p w (onInit Scenario.constructed)) in
  tick p w s
  = (snd (fst (pre_load p w s)), [] ++ [loadPCDFile_call XYZ "f1"])
  /\ index (fst (tick p w s)) = 1
  /\ previous_index (fst (tick p w s)) = 0
  /\ snd (tick p w (fst (tick p w s)))
     = [loadPCDFile_call XYZ "f2";
        out_cloud_write XYZ (Scenario.cloud_of XYZ "f2")].
Proof.
  intros p w s. split; [|repeat split].
  apply (unreadable_file_is_passed_over p w s
           (snd (fst (pre_load p w s))) []).
  - reflexivity.
  - vm_compute. discriminate.
  - intros k Hk. destruct k; try discriminate Hk.
    exists []. reflexivity.
Defined.
